(** * TinyTerm: the escape state machine, the relay loop and the cleanup glue

    A shallow embedding of [tinyterm/tinyterm.py].  Python [bytes] objects are
    lists of bytes, Python [str] objects are lists of Unicode code points, the
    attributes of the [SerialConsole] object and the locals of its [__call__]
    method are the fields of one record, and code that mutates them or raises
    runs in a small state-and-exception monad. *)

From Stdlib Require Import List Bool NArith ZArith String Ascii Lia.
From Stdlib Require Import Strings.Byte.
Import ListNotations.

Local Open Scope list_scope.

(** ** Python values *)

(** [bytes]: an immutable sequence of octets. *)
Definition bytes := list byte.

(** [str]: a sequence of code points. *)
Definition pystr := list N.

(** A [bytes] literal made of printable ASCII, [b'...']. *)
Definition B (s : string) : bytes := list_byte_of_string s.

(** A [str] literal made of printable ASCII. *)
Definition S_ (s : string) : pystr :=
  map (fun b => Byte.to_N b) (list_byte_of_string s).

Fixpoint bytes_eqb (a b : bytes) : bool :=
  match a, b with
  | [], [] => true
  | x :: a', y :: b' => Byte.eqb x y && bytes_eqb a' b'
  | _, _ => false
  end.

Fixpoint pystr_eqb (a b : pystr) : bool :=
  match a, b with
  | [], [] => true
  | x :: a', y :: b' => N.eqb x y && pystr_eqb a' b'
  | _, _ => false
  end.

(** [x in [v1, v2, ...]] on bytes objects and on strings. *)
Definition bytes_in (x : bytes) (l : list bytes) : bool :=
  existsb (bytes_eqb x) l.

Definition pystr_in (x : pystr) (l : list pystr) : bool :=
  existsb (pystr_eqb x) l.

(** [b''.join(chunks)]. *)
Definition bytes_join (chunks : list bytes) : bytes := List.concat chunks.

(** [sep.join(items)] on strings. *)
Fixpoint str_join (sep : pystr) (items : list pystr) : pystr :=
  match items with
  | [] => []
  | [x] => x
  | x :: rest => x ++ sep ++ str_join sep rest
  end.

(** [[data[x:x + 1] for x in range(len(data))]]: one bytes object of length
    one per octet. *)
Definition split_bytes (data : bytes) : list bytes :=
  map (fun b => [b]) data.

(** Exceptions the modelled code can raise. *)
Inductive exn : Type :=
| UnicodeEncodeError
| IndexError
| ValueError.

(** The octet with value [n]; [n] is below 256 wherever this is used. *)
Definition octet (n : N) : byte :=
  match Byte.of_N n with
  | Some b => b
  | None => x00
  end.

(** The UTF-8 encoding of one code point; surrogates and values outside the
    code space are refused. *)
Definition utf8_char (c : N) : option bytes :=
  if (c <? 128)%N then Some [octet c]
  else if (c <? 2048)%N then
    Some [octet (192 + N.shiftr c 6); octet (128 + N.land c 63)]
  else if (c <? 65536)%N then
    if ((55296 <=? c) && (c <=? 57343))%N then None
    else Some [octet (224 + N.shiftr c 12);
               octet (128 + N.land (N.shiftr c 6) 63);
               octet (128 + N.land c 63)]
  else if (c <? 1114112)%N then
    Some [octet (240 + N.shiftr c 18);
          octet (128 + N.land (N.shiftr c 12) 63);
          octet (128 + N.land (N.shiftr c 6) 63);
          octet (128 + N.land c 63)]
  else None.

(** [bytes(s, 'utf-8')]: [None] stands for [UnicodeEncodeError]. *)
Fixpoint utf8_encode (s : pystr) : option bytes :=
  match s with
  | [] => Some []
  | c :: rest =>
      match utf8_char c, utf8_encode rest with
      | Some bs, Some tl => Some (bs ++ tl)
      | _, _ => None
      end
  end.

(** [os.environ] as seen through [os.getenv]. *)
Definition environ := string -> option pystr.

(** [os.getenv(key, default)]. *)
Definition getenv (env : environ) (key : string) (default : pystr) : pystr :=
  match env key with
  | Some v => v
  | None => default
  end.

(** ** State and exceptions *)

Inductive outcome (A : Type) : Type :=
| Ret (a : A)
| Raise (e : exn).

Arguments Ret {A} a.
Arguments Raise {A} e.

(** A computation over a mutable state [St] that returns or raises. *)
Definition M (St A : Type) : Type := St -> outcome A * St.

Definition ret {St A} (a : A) : M St A := fun s => (Ret a, s).

Definition raise {St A} (e : exn) : M St A := fun s => (Raise e, s).

Definition bind {St A C} (m : M St A) (k : A -> M St C) : M St C :=
  fun s =>
    match m s with
    | (Ret a, s') => k a s'
    | (Raise e, s') => (Raise e, s')
    end.

Definition modify {St} (f : St -> St) : M St unit := fun s => (Ret tt, f s).

Definition gets {St A} (f : St -> A) : M St A := fun s => (Ret (f s), s).

Declare Scope py_scope.
Delimit Scope py_scope with py.
Notation "x <- m ;; k" := (bind m (fun x => k))
  (at level 61, m at next level, right associativity) : py_scope.
Notation "m ;; k" := (bind m (fun _ => k))
  (at level 61, right associativity) : py_scope.
Local Open Scope py_scope.

(** [for x in xs: body(x)]; an exception leaves the loop. *)
Fixpoint for_each {St A} (body : A -> M St unit) (xs : list A) : M St unit :=
  match xs with
  | [] => ret tt
  | x :: rest => body x ;; for_each body rest
  end.

(** ** The console *)

(** What reaches the display through [sys.stdout]. *)
Inductive out_event : Type :=
| PrintLn (line : string)        (* print(line) *)
| BufWrite (data : bytes)      (* sys.stdout.buffer.write(data) *)
| Flush.                       (* sys.stdout.flush() *)

(** The state [SerialConsole.__call__] works on: the attribute [self.stop],
    the locals [trap_next] and [outbuf], the sequence of [self.port.write]
    calls made so far and the display. *)
Record Session : Type := mkSession {
  stop : bool;
  trap_next : bool;
  outbuf : list bytes;
  port_tx : list bytes;
  display : list out_event
}.

Definition set_stop (v : bool) (s : Session) : Session :=
  mkSession v (trap_next s) (outbuf s) (port_tx s) (display s).

Definition set_trap_next (v : bool) (s : Session) : Session :=
  mkSession (stop s) v (outbuf s) (port_tx s) (display s).

Definition set_outbuf (v : list bytes) (s : Session) : Session :=
  mkSession (stop s) (trap_next s) v (port_tx s) (display s).

(** [self.port.write(data)]. *)
Definition port_write (data : bytes) (s : Session) : Session :=
  mkSession (stop s) (trap_next s) (outbuf s) (port_tx s ++ [data]) (display s).

Definition emit (e : out_event) (s : Session) : Session :=
  mkSession (stop s) (trap_next s) (outbuf s) (port_tx s) (display s ++ [e]).

(** [self.ctrl_a = b'\x01']. *)
Definition ctrl_a : bytes := [x01].

Definition help_lines : list string :=
  ["Tiny-term commands:";
   " [CTRL+a, (q, k, or \)]: Exit";
   " [CTRL+a, r]:            Send shell commands terminal-config";
   " [CTRL+a, CTRL+a]:       Send literal CTRL+a";
   " [CTRL+a, ?]:            Show this menu"]%string.

(** [SerialConsole.print_help]. *)
Definition print_help : M Session unit :=
  for_each (fun l => modify (emit (PrintLn l))) help_lines.

(** [bytes(s, 'utf-8')] as a computation. *)
Definition encode_utf8 {St} (s : pystr) : M St bytes :=
  match utf8_encode s with
  | Some bs => ret bs
  | None => raise UnicodeEncodeError
  end.

(** The string ["\x01\x0B\ntrue\n"]. *)
Definition reset_prefix : pystr := [1; 11; 10]%N ++ S_ "true" ++ [10]%N.

(** [SerialConsole.interpret]. *)
Definition interpret (env : environ) (char : bytes) : M Session bytes :=
  if bytes_in char [B "q"; B "Q"; B "k"; B "K"; B "\"] then
    modify (set_stop true) ;;
    ret []
  else if bytes_in char [B "r"; B "R"] then
    let commands :=
      [S_ "export TERM=" ++ getenv env "TERM" (S_ "vt100");
       S_ "resize";
       S_ "reset"] in
    prefix <- encode_utf8 reset_prefix ;;
    tail <- encode_utf8 (str_join (S_ " && ") commands ++ [10]%N) ;;
    ret (prefix ++ tail)
  else if bytes_in char [B "?"] then
    print_help ;;
    ret []
  else ret char.

(** The body of [for char in data]. *)
Definition feed (env : environ) (char : bytes) : M Session unit :=
  trap <- gets trap_next ;;
  if trap then
    r <- interpret env char ;;
    modify (fun s => set_outbuf (outbuf s ++ [r]) s) ;;
    modify (set_trap_next false)
  else if bytes_eqb char ctrl_a then
    modify (set_trap_next true)
  else
    modify (fun s => set_outbuf (outbuf s ++ [char]) s).

(** ** The relay loop *)

(** What one return of [select.select] brings: the data [self.port.read()]
    gives when the port is in [ready[0]], the data [sys.stdin.read()] gives
    when standard input is; or the delivery of SIGINT. *)
Inductive event : Type :=
| Ready (port_data : option bytes) (stdin_data : option bytes)
| Signal.

Inductive loop_ctl : Type := Continue | Break.

(** [if self.port in ready[0]]: what the port sent goes to the display. *)
Definition drain_port (port_data : option bytes) : M Session unit :=
  match port_data with
  | Some data => modify (emit (BufWrite data)) ;; modify (emit Flush)
  | None => ret tt
  end.

(** The body of [if sys.stdin in ready[0]] once [data] has been read. *)
Definition relay_stdin (env : environ) (data : bytes) : M Session loop_ctl :=
  for_each (feed env) (split_bytes data) ;;
  halt <- gets stop ;;
  if halt then ret Break
  else
    buf <- gets outbuf ;;
    modify (port_write (bytes_join buf)) ;;
    modify (set_outbuf []) ;;
    ret Continue.

(** One turn of [while True] after [select] has returned. *)
Definition iteration (env : environ) (port_data stdin_data : option bytes)
  : M Session loop_ctl :=
  drain_port port_data ;;
  match stdin_data with
  | Some data => relay_stdin env data
  | None => ret Continue
  end.

(** ** Signal handling *)

(** The values [signal.getsignal] can return. *)
Inductive sighandler : Type :=
| SIG_DFL
| SIG_IGN
| NoHandler
| PyFunction (body : M Session unit).

Definition callable (h : sighandler) : bool :=
  match h with
  | PyFunction _ => true
  | _ => false
  end.

(** [register_handler]: the closure [handler] it installs, given what
    [signal.getsignal(signum)] returned. *)
Definition register_handler (old_handler : sighandler)
  (function : M Session unit) : M Session unit :=
  result <- function ;;
  if callable old_handler then
    match old_handler with
    | PyFunction body => body
    | _ => ret result
    end
  else ret result.

(** The SIGINT handler [SerialConsole.__init__] installs:
    [signal.signal(signal.SIGINT, signal.SIG_IGN)] and then
    [register_handler(signal.SIGINT, self.port.write, b'\x03')]. *)
Definition sigint_handler : M Session unit :=
  register_handler SIG_IGN (modify (port_write [x03])).

Inductive loop_status : Type :=
| Waiting      (* blocked in select, no event left *)
| Finished.    (* left the loop through break *)

(** The [while True] loop of [__call__] over the events the process sees. *)
Fixpoint run_loop (env : environ) (evs : list event) : M Session loop_status :=
  match evs with
  | [] => ret Waiting
  | Signal :: rest => sigint_handler ;; run_loop env rest
  | Ready port_data stdin_data :: rest =>
      ctl <- iteration env port_data stdin_data ;;
      match ctl with
      | Break => ret Finished
      | Continue => run_loop env rest
      end
  end.

(** An event that brings no keyboard input: port traffic or a signal. *)
Definition quiet (ev : event) : bool :=
  match ev with
  | Ready _ None => true
  | Ready _ (Some _) => false
  | Signal => true
  end.

Definition banner : string := "--- Press [CTRL+A] and then q to quit. ---".

Definition goodbye : string := String "010" "--- Goodbye. ---".

(** [SerialConsole.__call__]. *)
Definition call (env : environ) (evs : list event) : M Session loop_status :=
  modify (set_trap_next false) ;;
  modify (set_stop false) ;;
  modify (set_outbuf []) ;;
  modify (emit (PrintLn banner)) ;;
  status <- run_loop env evs ;;
  match status with
  | Finished => modify (emit (PrintLn goodbye)) ;; ret Finished
  | Waiting => ret Waiting
  end.

(** ** Cleanup registration *)

Section RegisterCleanup.

(** The resource the registered function acts on, the function with its
    arguments bound, and the previous [sys.excepthook]. *)
Variable W : Type.
Variable function : M W unit.
Variable old_hook : M W unit.

(** The closure [cleanup]: its attribute [called], the resource, and a
    count of the executions of [function]. *)
Record closure : Type := mkClosure {
  called : bool;
  runs : nat;
  world : W
}.

Definition call_function : M closure unit :=
  fun c =>
    let (r, w) := function (world c) in
    (r, mkClosure (called c) (S (runs c)) w).

Definition call_old_hook : M closure unit :=
  fun c =>
    let (r, w) := old_hook (world c) in
    (r, mkClosure (called c) (runs c) w).

Definition set_called (v : bool) (c : closure) : closure :=
  mkClosure v (runs c) (world c).

(** [cleanup()]. *)
Definition cleanup : M closure unit :=
  done <- gets called ;;
  if negb done then
    call_function ;;
    modify (set_called true)
  else ret tt.

(** [new_hook(exception_type, value, traceback)]. *)
Definition new_hook : M closure unit :=
  cleanup ;;
  call_old_hook.

(** [cleanup.called = False] at registration. *)
Definition register_cleanup (w : W) : closure := mkClosure false 0 w.

(** The two ways the interpreter reaches the wrapper. *)
Inductive trigger : Type :=
| AtExit        (* the atexit machinery calls cleanup *)
| ExceptHook.   (* an uncaught exception calls sys.excepthook *)

(** The interpreter reports an exception raised by either hook and goes
    on. *)
Definition fire (t : trigger) (c : closure) : closure :=
  match t with
  | AtExit => snd (cleanup c)
  | ExceptHook => snd (new_hook c)
  end.

Definition fire_all (ts : list trigger) (c : closure) : closure :=
  fold_left (fun acc t => fire t acc) ts c.

End RegisterCleanup.

Arguments called {W} c.
Arguments runs {W} c.
Arguments world {W} c.
Arguments mkClosure {W} called runs world.

(** ** The command line *)

Section Main.

(** The full upper-case mapping of a code point outside ASCII, [int(s)]
    and [os.path.exists]. *)
Variable unicode_upper : N -> pystr.
Variable py_int : pystr -> option Z.
Variable path_exists : pystr -> bool.

(** The code points [str.strip()] removes. *)
Definition isspace (c : N) : bool :=
  ((9 <=? c) && (c <=? 13) || (28 <=? c) && (c <=? 32)
   || (c =? 133) || (c =? 160) || (c =? 5760)
   || (8192 <=? c) && (c <=? 8202)
   || (c =? 8232) || (c =? 8233) || (c =? 8239) || (c =? 8287)
   || (c =? 12288))%N.

Fixpoint lstrip (s : pystr) : pystr :=
  match s with
  | [] => []
  | c :: rest => if isspace c then lstrip rest else s
  end.

(** [s.strip()]. *)
Definition strip (s : pystr) : pystr := rev (lstrip (rev (lstrip s))).

Definition upper_char (c : N) : pystr :=
  if ((97 <=? c) && (c <=? 122))%N then [(c - 32)%N]
  else if (c <? 128)%N then [c]
  else unicode_upper c.

(** [s.upper()]. *)
Definition upper (s : pystr) : pystr := flat_map upper_char s.

(** The namespace [parser.parse_args()] returns. *)
Record Namespace : Type := mkNamespace {
  device : pystr;
  baud : pystr;
  parity : pystr
}.

Inductive main_result : Type :=
| SysExit (status : Z) (stderr : pystr)
| Uncaught (e : exn)
| RunConsole (dev : pystr) (baudrate : Z) (par : pystr).

(** [main], from the parsed arguments on. *)
Definition main (args : Namespace) : main_result :=
  match upper (strip (parity args)) with
  | [] => Uncaught IndexError
  | c :: _ =>
      let par := [c] in
      if negb (pystr_in par [S_ "E"; S_ "O"; S_ "N"]) then
        SysExit 1 (S_ "Error: unknown parity setting [" ++ par
                   ++ S_ "]." ++ [10%N])
      else
        match py_int (baud args) with
        | None =>
            SysExit 1 (S_ "Error: couldn't parse baud rate [" ++ baud args
                       ++ S_ "]." ++ [10%N])
        | Some rate =>
            if negb (path_exists (device args)) then
              SysExit 1 (S_ "Error: couldn't find device [" ++ device args
                         ++ S_ "]." ++ [10%N])
            else RunConsole (device args) rate par
        end
  end.

End Main.

(** ** The hooks of a console *)

Section ConsoleHooks.

(** The process state, [self.port.close], the restoring
    [termios.tcsetattr(sys.stdin, termios.TCSANOW, stty)] and the
    [sys.excepthook] found by [SerialConsole.__init__]. *)
Variable W : Type.
Variable port_close : M W unit.
Variable restore_tty : M W unit.
Variable original_hook : M W unit.

(** A computation on the resource, run inside a closure that holds it. *)
Definition in_world {V : Type} (m : M V unit) : M (closure V) unit :=
  fun c =>
    let (r, w) := m (world c) in
    (r, mkClosure (called c) (runs c) w).

(** [__init__] registers [self.port.close] and then, in [reopen_stdin], the
    restoring call: the second closure is registered while the hook of the
    first is [sys.excepthook]. *)
Definition console_hooks (w : W) : closure (closure W) :=
  register_cleanup (closure W) (register_cleanup W w).

(** [sys.excepthook] once [__init__] has returned. *)
Definition console_excepthook : M (closure (closure W)) unit :=
  new_hook (closure W) (in_world restore_tty)
    (new_hook W port_close original_hook).

(** The atexit machinery: the callbacks run last registered first, and an
    exception raised by one is reported and does not stop the next. *)
Definition console_atexit (c : closure (closure W)) : closure (closure W) :=
  let c1 := snd (cleanup (closure W) (in_world restore_tty) c) in
  snd (in_world (cleanup W port_close) c1).

End ConsoleHooks.

Arguments in_world {V} m.

(** ** The earlier console *)

(** [sub in data] on bytes objects. *)
Fixpoint bytes_startswith (sub data : bytes) : bool :=
  match sub, data with
  | [], _ => true
  | _ :: _, [] => false
  | x :: sub', y :: data' => Byte.eqb x y && bytes_startswith sub' data'
  end.

Fixpoint bytes_contains (sub data : bytes) : bool :=
  bytes_startswith sub data
  || match data with
     | [] => false
     | _ :: data' => bytes_contains sub data'
     end.

(** [data[-1:]]. *)
Fixpoint last_slice (data : bytes) : bytes :=
  match data with
  | [] => []
  | [b] => [b]
  | _ :: rest => last_slice rest
  end.

(** The state of [SerialConsole.__call__] in [tinyterm.py] at the top of the
    repository: the local [trapped_control], the writes to the port and the
    display. *)
Record Legacy : Type := mkLegacy {
  trapped_control : bool;
  legacy_tx : list bytes;
  legacy_display : list out_event
}.

Definition legacy_write (data : bytes) (s : Legacy) : Legacy :=
  mkLegacy (trapped_control s) (legacy_tx s ++ [data]) (legacy_display s).

Definition legacy_set_trapped (v : bool) (s : Legacy) : Legacy :=
  mkLegacy v (legacy_tx s) (legacy_display s).

Definition legacy_print (line : string) (s : Legacy) : Legacy :=
  mkLegacy (trapped_control s) (legacy_tx s)
    (legacy_display s ++ [PrintLn line]).

(** The body of [if sys.stdin in ready[0]] of that loop. *)
Definition legacy_stdin (data : bytes) (s : Legacy) : loop_ctl * Legacy :=
  if bytes_contains (x01 :: B "q") data then
    (Break, legacy_print goodbye s)
  else if trapped_control s && bytes_eqb (firstn 1 data) (B "q") then
    (Break, legacy_print goodbye s)
  else if bytes_eqb (last_slice data) [x01] then
    (Continue, legacy_write (removelast data) (legacy_set_trapped true s))
  else
    let s1 :=
      if trapped_control s then
        legacy_write [x01] (legacy_set_trapped false s)
      else s in
    (Continue, legacy_write data s1).

(** One turn of that loop after [select] has returned. *)
Definition legacy_iteration (port_data stdin_data : option bytes) (s : Legacy)
  : loop_ctl * Legacy :=
  let s1 :=
    match port_data with
    | Some data =>
        mkLegacy (trapped_control s) (legacy_tx s)
          (legacy_display s ++ [BufWrite data; Flush])
    | None => s
    end in
  match stdin_data with
  | Some data => legacy_stdin data s1
  | None => (Continue, s1)
  end.

(** That loop over the events the process sees; the SIGINT handler is the
    one [__init__] installs there, which writes the interrupt byte. *)
Fixpoint legacy_loop (evs : list event) (s : Legacy) : loop_status * Legacy :=
  match evs with
  | [] => (Waiting, s)
  | Signal :: rest => legacy_loop rest (legacy_write [x03] s)
  | Ready port_data stdin_data :: rest =>
      match legacy_iteration port_data stdin_data s with
      | (Break, s') => (Finished, s')
      | (Continue, s') => legacy_loop rest s'
      end
  end.

Section LegacyMain.

Variable unicode_upper : N -> pystr.
Variable py_int : pystr -> option Z.


End LegacyMain.

(** ** Packaging *)

(** [sub in s] on strings. *)
Fixpoint str_startswith (sub s : pystr) : bool :=
  match sub, s with
  | [], _ => true
  | _ :: _, [] => false
  | x :: sub', y :: s' => N.eqb x y && str_startswith sub' s'
  end.

Fixpoint str_contains (sub s : pystr) : bool :=
  str_startswith sub s
  || match s with
     | [] => false
     | _ :: s' => str_contains sub s'
     end.

(** [os.path.join] on a POSIX system: an absolute component drops what
    precedes it, and a separator is put between components unless the path
    so far is empty or ends with one. *)
Definition path_join2 (path b : pystr) : pystr :=
  if str_startswith (S_ "/") b then b
  else
    match rev path with
    | [] => path ++ b
    | c :: _ => if (c =? 47)%N then path ++ b else path ++ S_ "/" ++ b
    end.

Definition path_join (a : pystr) (ps : list pystr) : pystr :=
  fold_left path_join2 ps a.

(** What [os.walk] yields for one directory. *)
Definition walk_entry : Type := (pystr * list pystr * list pystr)%type.

(** The loop of [package_files] that collects the paths. *)
Definition collect_paths (walk : list walk_entry) : list pystr :=
  flat_map
    (fun entry : walk_entry =>
       let '(path, _, filenames) := entry in
       map (fun filename => path_join (S_ "..") [path; filename]) filenames)
    walk.

(** [package_files] of [setup.py], given what [os.walk(directory)]
    yields. *)
Definition package_files (walk : list walk_entry) : list pystr :=
  let paths := collect_paths walk in
  let paths := filter (fun x => negb (str_contains (S_ ".git") x)) paths in
  let paths :=
    filter (fun x => negb (str_contains (S_ "__pycache__") x)) paths in
  let paths := filter (fun x => negb (str_contains (S_ ".pyc") x)) paths in
  paths.

(** ** Proof tactics *)

(** Unfolds the operations of the monad. *)
Ltac run := cbv beta iota delta [bind gets modify ret raise].

(** Membership tests and encodings of literals are settled by evaluation. *)
Ltac settle_literals :=
  repeat match goal with
  | |- context [bytes_in ?c ?l] =>
      let v := eval vm_compute in (bytes_in c l) in
      change (bytes_in c l) with v
  | |- context [utf8_encode reset_prefix] =>
      let v := eval vm_compute in (utf8_encode reset_prefix) in
      change (utf8_encode reset_prefix) with v
  end;
  cbv iota.

(** * Properties *)

(** ** Values *)

Lemma bytes_eqb_eq (a b : bytes) : bytes_eqb a b = true <-> a = b.
Proof.
  revert b; induction a as [|x a IH]; intros [|y b]; simpl;
    try (split; [discriminate | discriminate]); [tauto|].
  rewrite andb_true_iff, IH. split.
  - intros [Hx Hab]. apply Byte.byte_dec_bl in Hx. congruence.
  - intros E; injection E as -> ->. split; [apply Byte.byte_dec_lb|]; reflexivity.
Qed.

Lemma bytes_eqb_refl (a : bytes) : bytes_eqb a a = true.
Proof. apply bytes_eqb_eq; reflexivity. Qed.

Lemma bytes_eqb_neq (a b : bytes) : a <> b -> bytes_eqb a b = false.
Proof.
  intros N. destruct (bytes_eqb a b) eqn:E; [|reflexivity].
  apply bytes_eqb_eq in E. contradiction.
Qed.

Lemma bytes_in_In (x : bytes) (l : list bytes) :
  bytes_in x l = true <-> In x l.
Proof.
  unfold bytes_in. rewrite existsb_exists. split.
  - intros [y [Hy E]]. apply bytes_eqb_eq in E. now subst.
  - intros H. exists x. split; [assumption | apply bytes_eqb_refl].
Qed.

Lemma bytes_join_split (data : bytes) : bytes_join (split_bytes data) = data.
Proof.
  unfold bytes_join, split_bytes.
  induction data as [|b data IH]; simpl; [reflexivity | now rewrite IH].
Qed.

Lemma bytes_join_app (a b : list bytes) :
  bytes_join (a ++ b) = bytes_join a ++ bytes_join b.
Proof. unfold bytes_join. apply concat_app. Qed.

Lemma split_bytes_app (a b : bytes) :
  split_bytes (a ++ b) = split_bytes a ++ split_bytes b.
Proof. unfold split_bytes. apply map_app. Qed.

(** ** The monad *)

Lemma bind_assoc {St A C D} (m : M St A) (k : A -> M St C) (h : C -> M St D)
  (s : St) :
  bind (bind m k) h s = bind m (fun a => bind (k a) h) s.
Proof. unfold bind. destruct (m s) as [[a|e] s']; reflexivity. Qed.

Lemma for_each_app {St A} (body : A -> M St unit) (xs ys : list A) (s : St) :
  for_each body (xs ++ ys) s = (for_each body xs ;; for_each body ys) s.
Proof.
  revert s; induction xs as [|x xs IH]; intros s; simpl.
  - reflexivity.
  - unfold bind. destruct (body x s) as [[[]|e] s']; [|reflexivity].
    rewrite IH. reflexivity.
Qed.

Lemma for_each_ret {St A} (body : A -> M St unit) (xs ys : list A) (s s1 : St) :
  for_each body xs s = (Ret tt, s1) ->
  for_each body (xs ++ ys) s = for_each body ys s1.
Proof. intros H. rewrite for_each_app. unfold bind. now rewrite H. Qed.

(** ** One byte through the state machine *)

(** [interpret] leaves the port, the trap flag and the buffer alone, and
    never lowers the stop flag. *)
Lemma interpret_frame env c s :
  port_tx (snd (interpret env c s)) = port_tx s
  /\ trap_next (snd (interpret env c s)) = trap_next s
  /\ outbuf (snd (interpret env c s)) = outbuf s
  /\ (stop s = true -> stop (snd (interpret env c s)) = true).
Proof.
  unfold interpret.
  destruct (bytes_in c [B "q"; B "Q"; B "k"; B "K"; B "\"]).
  { run. simpl. auto. }
  destruct (bytes_in c [B "r"; B "R"]).
  { unfold encode_utf8.
    destruct (utf8_encode reset_prefix); run; [|simpl; auto].
    match goal with |- context [utf8_encode ?x] => destruct (utf8_encode x) end;
      run; simpl; auto. }
  destruct (bytes_in c [B "?"]); run; simpl; auto.
Qed.

Lemma feed_frame env c s :
  port_tx (snd (feed env c s)) = port_tx s
  /\ (stop s = true -> stop (snd (feed env c s)) = true).
Proof.
  unfold feed. run.
  destruct (trap_next s).
  - destruct (interpret_frame env c s) as (Hp & _ & _ & Hs).
    destruct (interpret env c s) as [[r|e] s']; simpl in *; auto.
  - destruct (bytes_eqb c ctrl_a); simpl; auto.
Qed.

Lemma feed_port_tx env c s : port_tx (snd (feed env c s)) = port_tx s.
Proof. apply feed_frame. Qed.

Lemma feed_stop_mono env c s :
  stop s = true -> stop (snd (feed env c s)) = true.
Proof. apply feed_frame. Qed.

Lemma feed_literal env b s :
  trap_next s = false -> b <> x01 ->
  feed env [b] s = (Ret tt, set_outbuf (outbuf s ++ [[b]]) s).
Proof.
  intros Ht Hb. unfold feed; run. rewrite Ht.
  rewrite bytes_eqb_neq; [reflexivity|]. unfold ctrl_a. congruence.
Qed.

Lemma feed_prefix env s :
  trap_next s = false -> feed env ctrl_a s = (Ret tt, set_trap_next true s).
Proof. intros Ht. unfold feed; run. rewrite Ht. reflexivity. Qed.

Lemma feed_trapped env c s :
  trap_next s = true ->
  feed env c s =
  (r <- interpret env c ;;
   modify (fun s => set_outbuf (outbuf s ++ [r]) s) ;;
   modify (set_trap_next false)) s.
Proof. intros Ht. unfold feed; run. rewrite Ht. reflexivity. Qed.

(** ** A batch through the state machine *)

Lemma batch_port_tx env cs s :
  port_tx (snd (for_each (feed env) cs s)) = port_tx s.
Proof.
  revert s; induction cs as [|c cs IH]; intros s; simpl; [reflexivity|].
  unfold bind. pose proof (feed_port_tx env c s) as H.
  destruct (feed env c s) as [[[]|e] s']; simpl in *; [|assumption].
  rewrite IH. assumption.
Qed.

Lemma batch_stop_mono env cs s :
  stop s = true -> stop (snd (for_each (feed env) cs s)) = true.
Proof.
  revert s; induction cs as [|c cs IH]; intros s Hs; simpl; [assumption|].
  unfold bind. pose proof (feed_stop_mono env c s Hs) as H.
  destruct (feed env c s) as [[[]|e] s']; simpl in *; [|assumption].
  apply IH. assumption.
Qed.

Lemma batch_literal env data s :
  ~ In x01 data -> trap_next s = false ->
  for_each (feed env) (split_bytes data) s =
  (Ret tt, set_outbuf (outbuf s ++ split_bytes data) s).
Proof.
  revert s; induction data as [|b data IH]; intros s Hn Ht; simpl.
  - rewrite app_nil_r. destruct s; reflexivity.
  - unfold bind. rewrite feed_literal; [|assumption|].
    + rewrite IH; [|intros H; apply Hn; now right | exact Ht].
      simpl. rewrite <- app_assoc. reflexivity.
    + intros E. apply Hn. left. now subst.
Qed.

Lemma drain_port_frame p s :
  exists d, drain_port p s =
            (Ret tt, mkSession (stop s) (trap_next s) (outbuf s) (port_tx s) d).
Proof.
  destruct p as [data|]; unfold drain_port, emit; run; simpl.
  - eexists. reflexivity.
  - exists (display s). destruct s; reflexivity.
Qed.

Lemma drain_port_eq p s :
  drain_port p s =
  (Ret tt, mkSession (stop s) (trap_next s) (outbuf s) (port_tx s)
             (display (snd (drain_port p s)))).
Proof.
  destruct (drain_port_frame p s) as [d Hd]. rewrite Hd at 1. rewrite Hd.
  reflexivity.
Qed.

(** What [relay_stdin] does once the batch has gone through [feed]. *)
Lemma relay_stdin_after env data s s1 :
  for_each (feed env) (split_bytes data) s = (Ret tt, s1) ->
  relay_stdin env data s =
  if stop s1 then (Ret Break, s1)
  else (Ret Continue,
        set_outbuf [] (port_write (bytes_join (outbuf s1)) s1)).
Proof.
  intros H. unfold relay_stdin. unfold bind at 1. rewrite H. run.
  destruct (stop s1); reflexivity.
Qed.

Lemma relay_stdin_raise env data s e s1 :
  for_each (feed env) (split_bytes data) s = (Raise e, s1) ->
  relay_stdin env data s = (Raise e, s1).
Proof. intros H. unfold relay_stdin. unfold bind at 1. rewrite H. reflexivity. Qed.

(** A batch in which the stop flag has come up writes nothing and does not
    let the loop continue. *)
Lemma relay_stdin_stopped env b1 b2 s s1 :
  for_each (feed env) (split_bytes b1) s = (Ret tt, s1) ->
  stop s1 = true ->
  fst (relay_stdin env (b1 ++ b2) s) <> Ret Continue
  /\ port_tx (snd (relay_stdin env (b1 ++ b2) s)) = port_tx s.
Proof.
  intros H1 Hs.
  pose proof (batch_port_tx env (split_bytes (b1 ++ b2)) s) as Hp.
  pose proof (batch_stop_mono env (split_bytes b2) s1 Hs) as Hm.
  rewrite split_bytes_app, (for_each_ret _ _ _ _ _ H1) in Hp.
  destruct (for_each (feed env) (split_bytes b2) s1) as [[[]|e] s2] eqn:E2.
  - rewrite (relay_stdin_after env (b1 ++ b2) s s2).
    + simpl in Hm, Hp. rewrite Hm. simpl. split; [discriminate | exact Hp].
    + rewrite split_bytes_app, (for_each_ret _ _ _ _ _ H1). exact E2.
  - rewrite (relay_stdin_raise env (b1 ++ b2) s e s2).
    + simpl in *. split; [discriminate | exact Hp].
    + rewrite split_bytes_app, (for_each_ret _ _ _ _ _ H1). exact E2.
Qed.

Lemma iteration_eq env p i s :
  iteration env p i s =
  match i with
  | Some data =>
      relay_stdin env data
        (mkSession (stop s) (trap_next s) (outbuf s) (port_tx s)
           (display (snd (drain_port p s))))
  | None =>
      (Ret Continue,
       mkSession (stop s) (trap_next s) (outbuf s) (port_tx s)
         (display (snd (drain_port p s))))
  end.
Proof.
  unfold iteration. unfold bind at 1. rewrite drain_port_eq.
  destruct i; reflexivity.
Qed.

(** ** The signal handler and the loop *)

Lemma sigint_handler_eq s : sigint_handler s = (Ret tt, port_write [x03] s).
Proof. reflexivity. Qed.

(** Whenever the loop is back in [select], the stop flag is down and the
    pending-output buffer is empty. *)
Lemma run_loop_waiting_inv env evs s s' :
  stop s = false -> outbuf s = [] ->
  run_loop env evs s = (Ret Waiting, s') ->
  stop s' = false /\ outbuf s' = [].
Proof.
  revert s; induction evs as [|ev evs IH]; intros s Hs Ho H; simpl in H.
  - injection H as <-. auto.
  - destruct ev as [p i|].
    + unfold bind in H. rewrite iteration_eq in H. destruct i as [data|].
      * match type of H with context [relay_stdin env data ?s0] =>
          destruct (for_each (feed env) (split_bytes data) s0)
            as [[[]|e] s1] eqn:E
        end.
        -- rewrite (relay_stdin_after _ _ _ _ E) in H.
           destruct (stop s1) eqn:Es1; [discriminate|].
           eapply IH; [| |exact H]; simpl; auto.
        -- rewrite (relay_stdin_raise _ _ _ _ _ E) in H. discriminate.
      * eapply IH; [| |exact H]; simpl; auto.
    + unfold bind in H. rewrite sigint_handler_eq in H.
      eapply IH; [| |exact H]; simpl; auto.
Qed.

Lemma call_waiting_inv env evs s s' :
  call env evs s = (Ret Waiting, s') -> stop s' = false /\ outbuf s' = [].
Proof.
  unfold call. run. intros H.
  match type of H with context [run_loop env evs ?s0] =>
    destruct (run_loop env evs s0) as [[[]|e] s1] eqn:E
  end; try discriminate.
  injection H as <-. eapply run_loop_waiting_inv; [| |exact E]; reflexivity.
Qed.

(** ** Claims about the relay of a batch *)

(** C1: a batch without the escape-prefix byte, read while no escape is
    pending, is classified literal byte by byte and reaches the serial port
    as it was read: one write of exactly the batch, in order. *)
Theorem literal_batch_forwarded env p data s :
  ~ In x01 data -> trap_next s = false -> stop s = false -> outbuf s = [] ->
  for_each (feed env) (split_bytes data) s =
    (Ret tt, set_outbuf (split_bytes data) s)
  /\ iteration env p (Some data) s =
     (Ret Continue,
      mkSession false false [] (port_tx s ++ [data])
        (display (snd (drain_port p s)))).
Proof.
  intros Hn Ht Hs Ho. split.
  - rewrite batch_literal by assumption. rewrite Ho. reflexivity.
  - rewrite iteration_eq.
    erewrite relay_stdin_after by (apply batch_literal; [exact Hn | exact Ht]).
    simpl. rewrite Hs, Ho. simpl. rewrite bytes_join_split.
    unfold set_outbuf, port_write. simpl. rewrite Ht. reflexivity.
Qed.

Lemma literal_batch_forwarded_witness :
  for_each (feed (fun _ => None)) (split_bytes (B "hello" ++ [x0a]))
    (mkSession false false [] [] []) =
    (Ret tt,
     set_outbuf (split_bytes (B "hello" ++ [x0a]))
       (mkSession false false [] [] []))
  /\ iteration (fun _ => None) None (Some (B "hello" ++ [x0a]))
       (mkSession false false [] [] []) =
     (Ret Continue,
      mkSession false false [] [B "hello" ++ [x0a]] []).
Proof.
  apply (literal_batch_forwarded (fun _ => None) None (B "hello" ++ [x0a])
           (mkSession false false [] [] [])); try reflexivity.
  simpl. intros [H|[H|[H|[H|[H|[H|H]]]]]]; try discriminate H. exact H.
Defined.

(** C2: once the stop flag has come up at some byte of a batch, nothing of
    that batch is written to the port, whatever was buffered before; the
    turn does not continue and the loop does not go back to waiting. *)
Theorem stop_discards_batch env p b1 b2 rest s s1 :
  for_each (feed env) (split_bytes b1) (snd (drain_port p s)) = (Ret tt, s1) ->
  stop s1 = true ->
  fst (iteration env p (Some (b1 ++ b2)) s) <> Ret Continue
  /\ port_tx (snd (iteration env p (Some (b1 ++ b2)) s)) = port_tx s
  /\ fst (run_loop env (Ready p (Some (b1 ++ b2)) :: rest) s) <> Ret Waiting
  /\ port_tx (snd (run_loop env (Ready p (Some (b1 ++ b2)) :: rest) s))
     = port_tx s.
Proof.
  intros H1 Hs. rewrite drain_port_eq in H1. simpl in H1.
  destruct (relay_stdin_stopped env b1 b2 _ _ H1 Hs) as [Hc Hp].
  simpl in Hp. simpl run_loop. unfold bind. rewrite iteration_eq.
  destruct (relay_stdin env (b1 ++ b2) _) as [[[]|e] s2];
    simpl in *; try (exfalso; apply Hc; reflexivity);
    repeat split; try assumption; discriminate.
Qed.

Lemma stop_discards_batch_witness :
  let batch := (B "ab" ++ [x01] ++ B "q") ++ B "cd" in
  let s := mkSession false false [] [] [] in
  fst (iteration (fun _ => None) None (Some batch) s) <> Ret Continue
  /\ port_tx (snd (iteration (fun _ => None) None (Some batch) s)) = []
  /\ fst (run_loop (fun _ => None) [Ready None (Some batch)] s) <> Ret Waiting
  /\ port_tx (snd (run_loop (fun _ => None) [Ready None (Some batch)] s)) = [].
Proof.
  apply (stop_discards_batch (fun _ => None) None (B "ab" ++ [x01] ++ B "q")
           (B "cd") []
           (mkSession false false [] [] [])
           (mkSession true false [B "a"; B "b"; []] [] []));
    reflexivity.
Defined.

(** ** Claims about the escape commands *)

Lemma utf8_encode_app (a b : pystr) :
  utf8_encode (a ++ b) =
  match utf8_encode a, utf8_encode b with
  | Some x, Some y => Some (x ++ y)
  | _, _ => None
  end.
Proof.
  induction a as [|c a IH]; simpl.
  - destruct (utf8_encode b); reflexivity.
  - rewrite IH. destruct (utf8_char c) as [bc|]; [|reflexivity].
    destruct (utf8_encode a) as [x|]; [|reflexivity].
    destruct (utf8_encode b) as [y|]; [|reflexivity].
    now rewrite app_assoc.
Qed.

(** ASCII text encodes to itself, octet for octet. *)
Lemma utf8_encode_ascii (v : pystr) :
  Forall (fun c => (c < 128)%N) v -> utf8_encode v = Some (map octet v).
Proof.
  induction 1 as [|c v Hc _ IH]; simpl; [reflexivity|].
  unfold utf8_char. apply N.ltb_lt in Hc. rewrite Hc, IH. reflexivity.
Qed.

(** The command line of the reset sequence, encoded. *)
Lemma reset_line_encoded (env : environ) (bs : bytes) :
  utf8_encode (getenv env "TERM" (S_ "vt100")) = Some bs ->
  utf8_encode
    (str_join (S_ " && ")
       [S_ "export TERM=" ++ getenv env "TERM" (S_ "vt100");
        S_ "resize"; S_ "reset"] ++ [10%N]) =
  Some (B "export TERM=" ++ bs ++ B " && resize && reset" ++ [x0a]).
Proof.
  intros H. cbn [str_join].
  rewrite <- !app_assoc.
  rewrite utf8_encode_app.
  change (utf8_encode (S_ "export TERM=")) with (Some (B "export TERM=")).
  rewrite utf8_encode_app, H.
  match goal with |- context [utf8_encode ?x] =>
    let v := eval vm_compute in (utf8_encode x) in
    change (utf8_encode x) with v
  end.
  reflexivity.
Qed.

(** What [interpret] returns for [r] and [R]. *)
Lemma interpret_reset env c s bs :
  In c [B "r"; B "R"] ->
  utf8_encode (getenv env "TERM" (S_ "vt100")) = Some bs ->
  interpret env c s =
  (Ret ([x01; x0b; x0a] ++ B "true" ++ [x0a] ++ B "export TERM=" ++ bs
        ++ B " && resize && reset" ++ [x0a]), s).
Proof.
  intros Hc Hbs.
  assert (E : c = B "r" \/ c = B "R") by (simpl in Hc; intuition).
  unfold interpret, encode_utf8.
  rewrite (reset_line_encoded env bs Hbs).
  destruct E as [-> | ->]; settle_literals; reflexivity.
Qed.

(** C3: each of [q], [Q], [k], [K] and the backslash, consumed while an
    escape is pending, raises the stop flag and adds no byte to what the
    buffer joins to; the escape prefix followed by such a byte leaves the
    loop with the stop flag raised and nothing written to the port. *)
Theorem quit_command_stops env c s t :
  In c [B "q"; B "Q"; B "k"; B "K"; B "\"] ->
  trap_next s = true ->
  trap_next t = false ->
  feed env c s =
    (Ret tt, mkSession true false (outbuf s ++ [[]]) (port_tx s) (display s))
  /\ bytes_join (outbuf s ++ [[]]) = bytes_join (outbuf s)
  /\ relay_stdin env (ctrl_a ++ c) t =
     (Ret Break,
      mkSession true false (outbuf t ++ [[]]) (port_tx t) (display t)).
Proof.
  intros Hc Hs Ht.
  assert (Hi : forall u, interpret env c u = (Ret [], set_stop true u)).
  { intros u. unfold interpret.
    apply bytes_in_In in Hc. rewrite Hc. reflexivity. }
  assert (Hf : forall u, trap_next u = true ->
            feed env c u =
            (Ret tt,
             mkSession true false (outbuf u ++ [[]]) (port_tx u) (display u))).
  { intros u Hu. rewrite feed_trapped by exact Hu.
    unfold bind at 1. rewrite Hi. reflexivity. }
  assert (Hl : exists b, c = [b]).
  { simpl in Hc. unfold B in Hc. simpl in Hc.
    destruct Hc as [<-|[<-|[<-|[<-|[<-|[]]]]]]; eexists; reflexivity. }
  split; [apply Hf; exact Hs|]. split.
  - rewrite bytes_join_app. simpl. apply app_nil_r.
  - destruct Hl as [b ->].
    rewrite (relay_stdin_after env (ctrl_a ++ [b]) t
               (mkSession true false (outbuf t ++ [[]]) (port_tx t)
                  (display t))).
    + reflexivity.
    + change (split_bytes (ctrl_a ++ [b])) with [ctrl_a; [b]].
      cbn [for_each]. unfold bind at 1. rewrite (feed_prefix env t Ht).
      unfold bind. rewrite Hf by reflexivity. reflexivity.
Qed.

Lemma quit_command_stops_witness :
  let s := mkSession false true [] [] [] in
  let t := mkSession false false [] [] [] in
  feed (fun _ => None) (B "q") s = (Ret tt, mkSession true false [[]] [] [])
  /\ bytes_join (outbuf s ++ [[]]) = bytes_join (outbuf s)
  /\ relay_stdin (fun _ => None) [x01; x71] t =
     (Ret Break, mkSession true false [[]] [] []).
Proof.
  apply (quit_command_stops (fun _ => None) (B "q")
           (mkSession false true [] [] []) (mkSession false false [] [] []));
    [left; reflexivity | reflexivity | reflexivity].
Defined.



(** A value of TERM that has no UTF-8 encoding makes [interpret] raise. *)
Lemma interpret_reset_unencodable env c s :
  In c [B "r"; B "R"] ->
  utf8_encode (getenv env "TERM" (S_ "vt100")) = None ->
  interpret env c s = (Raise UnicodeEncodeError, s).
Proof.
  intros Hc Hv.
  assert (E : c = B "r" \/ c = B "R") by (simpl in Hc; intuition).
  assert (Hn : utf8_encode
                 (str_join (S_ " && ")
                    [S_ "export TERM=" ++ getenv env "TERM" (S_ "vt100");
                     S_ "resize"; S_ "reset"] ++ [10%N]) = None).
  { cbn [str_join]. rewrite <- !app_assoc.
    rewrite utf8_encode_app, utf8_encode_app, Hv.
    destruct (utf8_encode (S_ "export TERM=")); reflexivity. }
  unfold interpret, encode_utf8. rewrite Hn.
  destruct E as [-> | ->]; settle_literals; reflexivity.
Qed.

(** C5: the escape prefix twice in a row, with no escape pending before,
    buffers the byte 0x01 once, leaves no escape pending and leaves the
    stop flag as it was; as a batch of its own it sends that one byte to
    the port. *)
Theorem double_prefix_is_literal env s t :
  trap_next s = false ->
  trap_next t = false -> stop t = false -> outbuf t = [] ->
  for_each (feed env) (split_bytes [x01; x01]) s =
    (Ret tt,
     mkSession (stop s) false (outbuf s ++ [[x01]]) (port_tx s) (display s))
  /\ relay_stdin env [x01; x01] t =
     (Ret Continue,
      mkSession false false [] (port_tx t ++ [[x01]]) (display t)).
Proof.
  intros Hs Ht Hst Hot.
  assert (Hb : forall u, trap_next u = false ->
            for_each (feed env) (split_bytes [x01; x01]) u =
            (Ret tt,
             mkSession (stop u) false (outbuf u ++ [[x01]]) (port_tx u)
               (display u))).
  { intros u Hu. change (split_bytes [x01; x01]) with [ctrl_a; ctrl_a].
    cbn [for_each]. unfold bind at 1. rewrite (feed_prefix env u Hu).
    unfold bind. rewrite feed_trapped by reflexivity.
    unfold interpret. settle_literals. reflexivity. }
  split; [apply Hb; exact Hs|].
  rewrite (relay_stdin_after env [x01; x01] t _ (Hb t Ht)).
  simpl. rewrite Hst, Hot. reflexivity.
Qed.

Lemma double_prefix_is_literal_witness :
  let s := mkSession true false [B "a"] [] [] in
  let t := mkSession false false [] [] [] in
  for_each (feed (fun _ => None)) (split_bytes [x01; x01]) s =
    (Ret tt, mkSession true false [B "a"; [x01]] [] [])
  /\ relay_stdin (fun _ => None) [x01; x01] t =
     (Ret Continue, mkSession false false [] [[x01]] []).
Proof.
  apply (double_prefix_is_literal (fun _ => None)
           (mkSession true false [B "a"] [] [])
           (mkSession false false [] [] [])); reflexivity.
Defined.

(** ** Claims about the loop *)

(** Port traffic and signals leave the state machine as it is. *)
Lemma run_loop_quiet env mid s :
  forallb quiet mid = true ->
  exists s',
    (forall rest, run_loop env (mid ++ rest) s = run_loop env rest s')
    /\ trap_next s' = trap_next s
    /\ stop s' = stop s
    /\ outbuf s' = outbuf s.
Proof.
  revert s; induction mid as [|ev mid IH]; intros s Hq.
  - exists s. auto.
  - simpl in Hq. apply andb_true_iff in Hq as [Hev Hq].
    destruct ev as [p [data|]|]; try discriminate Hev.
    + destruct (IH (mkSession (stop s) (trap_next s) (outbuf s) (port_tx s)
                      (display (snd (drain_port p s)))) Hq)
        as (s' & Hr & Ht & Hs & Ho).
      exists s'. simpl in *. split; [|auto].
      intros rest. unfold bind. rewrite iteration_eq. apply Hr.
    + destruct (IH (port_write [x03] s) Hq) as (s' & Hr & Ht & Hs & Ho).
      exists s'. simpl in *. split; [|auto].
      intros rest. unfold bind. rewrite sigint_handler_eq. apply Hr.
Qed.

(** C6: when the last byte of a batch is taken as the escape prefix, the
    loop goes back to waiting with the escape still pending, port traffic
    and signals in between do not clear it, and the first byte of the next
    batch goes to [interpret] whatever it is. *)
Theorem pending_escape_persists env p pre mid s s1 :
  for_each (feed env) (split_bytes pre) (snd (drain_port p s)) = (Ret tt, s1) ->
  trap_next s1 = false ->
  stop s1 = false ->
  forallb quiet mid = true ->
  exists s2,
    run_loop env (Ready p (Some (pre ++ [x01])) :: mid) s = (Ret Waiting, s2)
    /\ trap_next s2 = true
    /\ forall p' c rest,
         run_loop env
           (Ready p (Some (pre ++ [x01])) :: mid
            ++ [Ready p' (Some (c :: rest))]) s =
         (drain_port p' ;;
          r <- interpret env [c] ;;
          modify (fun u => set_outbuf (outbuf u ++ [r]) u) ;;
          modify (set_trap_next false) ;;
          ctl <- relay_stdin env rest ;;
          match ctl with
          | Break => ret Finished
          | Continue => ret Waiting
          end) s2.
Proof.
  intros H1 Ht Hs Hq. rewrite drain_port_eq in H1. simpl in H1.
  assert (Hb : for_each (feed env) (split_bytes (pre ++ [x01]))
                 (mkSession (stop s) (trap_next s) (outbuf s) (port_tx s)
                    (display (snd (drain_port p s)))) =
               (Ret tt, set_trap_next true s1)).
  { rewrite split_bytes_app, (for_each_ret _ _ _ _ _ H1).
    change (split_bytes [x01]) with [ctrl_a]. cbn [for_each].
    unfold bind. rewrite (feed_prefix env s1 Ht). reflexivity. }
  pose (sA := set_outbuf []
                (port_write (bytes_join (outbuf (set_trap_next true s1)))
                   (set_trap_next true s1))).
  assert (H0 : forall tl,
            run_loop env (Ready p (Some (pre ++ [x01])) :: tl) s =
            run_loop env tl sA).
  { intros tl. cbn [run_loop]. unfold bind. rewrite iteration_eq.
    rewrite (relay_stdin_after _ _ _ _ Hb). simpl. rewrite Hs. reflexivity. }
  destruct (run_loop_quiet env mid sA Hq) as (s2 & Hr & Ht2 & Hs2 & _).
  exists s2. split.
  { rewrite H0. rewrite <- (app_nil_r mid), Hr. reflexivity. }
  split; [rewrite Ht2; reflexivity|].
  intros p' c rest. rewrite H0.
  rewrite Hr. cbn [run_loop]. unfold bind at 1. rewrite iteration_eq.
  unfold bind at 1. rewrite drain_port_eq. cbn [snd display].
  match goal with |- context [relay_stdin env (c :: rest) ?u] =>
    set (u0 := u) end.
  assert (Hu : trap_next u0 = true) by (subst u0; simpl; rewrite Ht2; reflexivity).
  clearbody u0. unfold relay_stdin at 1. cbn [split_bytes map for_each].
  unfold bind. rewrite (feed_trapped env [c] u0 Hu). unfold bind.
  destruct (interpret env [c] u0) as [[r|e] u1]; reflexivity.
Qed.

Lemma pending_escape_persists_witness :
  exists s2,
    run_loop (fun _ => None)
      (Ready None (Some (B "a" ++ [x01]))
       :: [Ready (Some (B "ok")) None; Signal])
      (mkSession false false [] [] []) = (Ret Waiting, s2)
    /\ trap_next s2 = true
    /\ forall p' c rest,
         run_loop (fun _ => None)
           (Ready None (Some (B "a" ++ [x01]))
            :: [Ready (Some (B "ok")) None; Signal]
            ++ [Ready p' (Some (c :: rest))])
           (mkSession false false [] [] []) =
         (drain_port p' ;;
          r <- interpret (fun _ => None) [c] ;;
          modify (fun u => set_outbuf (outbuf u ++ [r]) u) ;;
          modify (set_trap_next false) ;;
          ctl <- relay_stdin (fun _ => None) rest ;;
          match ctl with
          | Break => ret Finished
          | Continue => ret Waiting
          end) s2.
Proof.
  apply (pending_escape_persists (fun _ => None) None (B "a")
           [Ready (Some (B "ok")) None; Signal]
           (mkSession false false [] [] [])
           (mkSession false false [B "a"] [] [])); reflexivity.
Defined.

(** The prefix at the end of one read and [q] at the start of the next,
    with port traffic in between, quit the console. *)
Example prefix_then_quit_across_reads :
  run_loop (fun _ => None)
    [Ready None (Some (B "a" ++ [x01]));
     Ready (Some (B "ok")) None;
     Ready None (Some (B "q"))]
    (mkSession false false [] [] []) =
  (Ret Finished,
   mkSession true false [[]] [B "a"] [BufWrite (B "ok"); Flush]).
Proof. reflexivity. Qed.

(** C9: the SIGINT handler returns normally and changes nothing but the
    port, to which it writes the byte 0x03; delivered while the loop waits,
    it leaves the loop running on the remaining events. *)
Theorem sigint_only_writes_interrupt env rest s :
  sigint_handler s =
    (Ret tt,
     mkSession (stop s) (trap_next s) (outbuf s) (port_tx s ++ [[x03]])
       (display s))
  /\ run_loop env (Signal :: rest) s =
     run_loop env rest
       (mkSession (stop s) (trap_next s) (outbuf s) (port_tx s ++ [[x03]])
          (display s)).
Proof. split; reflexivity. Qed.

(** A handler registered over one that is not callable runs the function
    and nothing else. *)
Lemma register_handler_not_callable old function s :
  callable old = false ->
  register_handler old function s = function s.
Proof.
  intros H. unfold register_handler, bind. rewrite H.
  destruct (function s) as [[[]|e] s']; reflexivity.
Qed.




(** ** Claims about cleanup *)

Section CleanupFacts.

Variable W : Type.
Variable function : M W unit.
Variable old_hook : M W unit.





End CleanupFacts.



(** The resource is acted on once as well: here a counter of closes. *)
Example close_counted_once :
  world (fire_all nat (fun n => (Ret tt, S n)) (ret tt)
           [ExceptHook; AtExit; AtExit] (register_cleanup nat 0)) = 1.
Proof. reflexivity. Qed.

(** The flag is raised after the function has returned: a function that
    raises leaves it down and the next trigger runs the function again. *)
Example cleanup_retried_after_raise :
  runs (fire_all nat (fun n => (Raise ValueError, S n)) (ret tt)
          [ExceptHook; AtExit] (register_cleanup nat 0)) = 2.
Proof. reflexivity. Qed.

(** ** Claims about the command line *)

Section MainFacts.

Variable unicode_upper : N -> pystr.
Variable py_int : pystr -> option Z.
Variable path_exists : pystr -> bool.

Lemma lstrip_blank (s : pystr) : forallb isspace s = true -> lstrip s = [].
Proof.
  induction s as [|c s IH]; simpl; [reflexivity|].
  intros H. apply andb_true_iff in H as [Hc Hs]. rewrite Hc. auto.
Qed.

Lemma strip_blank (s : pystr) : forallb isspace s = true -> strip s = [].
Proof. intros H. unfold strip. rewrite (lstrip_blank s H). reflexivity. Qed.

(** An argument that is empty once stripped makes the indexing raise. *)
Lemma main_blank_parity dev bd par :
  forallb isspace par = true ->
  main unicode_upper py_int path_exists (mkNamespace dev bd par)
  = Uncaught IndexError.
Proof.
  intros H. unfold main. cbn [parity]. rewrite (strip_blank par H).
  reflexivity.
Qed.

(** An argument whose first letter is none of the three is reported and
    the program exits with status 1 before the console is created. *)
Lemma main_unknown_parity dev bd par c tl :
  upper unicode_upper (strip par) = c :: tl ->
  pystr_in [c] [S_ "E"; S_ "O"; S_ "N"] = false ->
  main unicode_upper py_int path_exists (mkNamespace dev bd par)
  = SysExit 1 (S_ "Error: unknown parity setting [" ++ [c]
               ++ S_ "]." ++ [10%N]).
Proof. intros Hu Hc. unfold main. cbn [parity]. rewrite Hu, Hc. reflexivity. Qed.

End MainFacts.

(** C7: an empty parity argument, or one made of blanks, does not reach the
    parity check: taking the first letter of the stripped text raises
    [IndexError], no diagnostic of the program is written and [sys.exit] is
    not called. *)
Theorem blank_parity_raises_index_error
  (unicode_upper : N -> pystr) (py_int : pystr -> option Z)
  (path_exists : pystr -> bool) (dev bd : pystr) :
  main unicode_upper py_int path_exists (mkNamespace dev bd (S_ ""))
    = Uncaught IndexError
  /\ main unicode_upper py_int path_exists (mkNamespace dev bd (S_ "  "))
     = Uncaught IndexError.
Proof. split; reflexivity. Qed.

Example parity_x_is_reported unicode_upper py_int path_exists dev bd :
  main unicode_upper py_int path_exists (mkNamespace dev bd (S_ " x "))
  = SysExit 1 (S_ "Error: unknown parity setting [X]." ++ [10%N]).
Proof. reflexivity. Qed.

Example parity_even_is_accepted unicode_upper :
  main unicode_upper (fun _ => Some 9600%Z) (fun _ => true)
    (mkNamespace (S_ "/dev/ttyUSB0") (S_ "9600") (S_ "even"))
  = RunConsole (S_ "/dev/ttyUSB0") 9600 (S_ "E").
Proof. reflexivity. Qed.

(** * Further properties of the console *)

(** ** The state machine, byte by byte *)

(** [interpret] case by case. *)
Lemma interpret_cases env c s :
  (In c [B "q"; B "Q"; B "k"; B "K"; B "\"]
   /\ interpret env c s = (Ret [], set_stop true s))
  \/ (In c [B "r"; B "R"]
      /\ ((exists bs, interpret env c s = (Ret bs, s))
          \/ interpret env c s = (Raise UnicodeEncodeError, s)))
  \/ (c = B "?"
      /\ interpret env c s =
         (Ret [],
          mkSession (stop s) (trap_next s) (outbuf s) (port_tx s)
            (display s ++ map PrintLn help_lines)))
  \/ (bytes_in c [B "q"; B "Q"; B "k"; B "K"; B "\"] = false
      /\ bytes_in c [B "r"; B "R"] = false
      /\ bytes_in c [B "?"] = false
      /\ interpret env c s = (Ret c, s)).
Proof.
  destruct (bytes_in c [B "q"; B "Q"; B "k"; B "K"; B "\"]) eqn:Eq.
  { left. split; [apply bytes_in_In; exact Eq|].
    unfold interpret. rewrite Eq. reflexivity. }
  destruct (bytes_in c [B "r"; B "R"]) eqn:Er.
  { right; left. apply bytes_in_In in Er. split; [exact Er|].
    destruct (utf8_encode (getenv env "TERM" (S_ "vt100"))) as [bs|] eqn:Ev.
    - left. eexists. apply (interpret_reset env c s bs Er Ev).
    - right. apply (interpret_reset_unencodable env c s Er Ev). }
  destruct (bytes_in c [B "?"]) eqn:Eh.
  { right; right; left. apply bytes_in_In in Eh.
    assert (c = B "?") as -> by (simpl in Eh; intuition).
    split; [reflexivity|]. unfold interpret. settle_literals.
    unfold print_help, help_lines. cbn [for_each]. run.
    unfold emit. simpl. rewrite <- !app_assoc. reflexivity. }
  right; right; right. repeat split; try reflexivity.
  unfold interpret. rewrite Eq, Er, Eh. reflexivity.
Qed.

(** X1: a byte that is no command, consumed while an escape is pending, is
    buffered as it is: the escape is dropped, the pending flag is cleared
    and nothing else changes. *)
Theorem unknown_escape_passes_through env c s :
  trap_next s = true ->
  bytes_in c [B "q"; B "Q"; B "k"; B "K"; B "\"; B "r"; B "R"; B "?"] = false ->
  feed env c s =
  (Ret tt,
   mkSession (stop s) false (outbuf s ++ [c]) (port_tx s) (display s)).
Proof.
  intros Ht Hc. rewrite feed_trapped by exact Ht. unfold bind at 1.
  destruct (interpret_cases env c s)
    as [[Hi _]|[[Hi _]|[[Hi _]|(_ & _ & _ & E)]]].
  - apply bytes_in_In in Hi. unfold bytes_in in *. simpl in *.
    repeat (apply orb_false_iff in Hc as [? Hc]).
    repeat (apply orb_true_iff in Hi as [Hi|Hi]); congruence.
  - apply bytes_in_In in Hi. unfold bytes_in in *. simpl in *.
    repeat (apply orb_false_iff in Hc as [? Hc]).
    repeat (apply orb_true_iff in Hi as [Hi|Hi]); congruence.
  - subst c. discriminate Hc.
  - rewrite E. reflexivity.
Qed.

Lemma unknown_escape_passes_through_witness :
  feed (fun _ => None) (B "x") (mkSession false true [B "a"] [] []) =
  (Ret tt, mkSession false false ([B "a"] ++ [B "x"]) [] []).
Proof.
  apply (unknown_escape_passes_through (fun _ => None) (B "x")
           (mkSession false true [B "a"] [] [])); reflexivity.
Defined.

(** X2: the stop flag comes up only through a quit command: if one byte
    raises it, an escape was pending and the byte is one of [q], [Q], [k],
    [K] and the backslash. *)
Theorem stop_only_by_quit_command env c s :
  stop s = false ->
  stop (snd (feed env c s)) = true ->
  trap_next s = true /\ In c [B "q"; B "Q"; B "k"; B "K"; B "\"].
Proof.
  intros Hs H. destruct (trap_next s) eqn:Ht.
  - split; [reflexivity|]. rewrite feed_trapped in H by exact Ht.
    unfold bind at 1 in H.
    destruct (interpret_cases env c s)
      as [[Hi _]|[[_ [[bs E]|E]]|[[_ E]|(_ & _ & _ & E)]]];
      [exact Hi | rewrite E in H; simpl in H; congruence ..].
  - unfold feed in H. revert H. run. rewrite Ht.
    destruct (bytes_eqb c ctrl_a); simpl; congruence.
Qed.

Lemma stop_only_by_quit_command_witness :
  trap_next (mkSession false true [] [] []) = true
  /\ In (B "k") [B "q"; B "Q"; B "k"; B "K"; B "\"].
Proof.
  apply (stop_only_by_quit_command (fun _ => None) (B "k")
           (mkSession false true [] [] [])); reflexivity.
Defined.

(** X3: the pending flag after a byte: it is raised exactly when no escape
    was pending and the byte is the prefix, so a pending escape lasts for
    one byte. *)
Theorem trap_next_transition env c s :
  fst (feed env c s) = Ret tt ->
  trap_next (snd (feed env c s)) = negb (trap_next s) && bytes_eqb c ctrl_a.
Proof.
  intros H. destruct (trap_next s) eqn:Ht.
  - rewrite feed_trapped in * by exact Ht. revert H. unfold bind at 1 3.
    destruct (interpret env c s) as [[r|e] s']; simpl; [reflexivity|].
    discriminate.
  - unfold feed. run. rewrite Ht.
    destruct (bytes_eqb c ctrl_a); simpl; [reflexivity | exact Ht].
Qed.

Lemma trap_next_transition_witness :
  trap_next (snd (feed (fun _ => None) ctrl_a (mkSession false false [] [] [])))
  = negb false && bytes_eqb ctrl_a ctrl_a.
Proof.
  apply (trap_next_transition (fun _ => None) ctrl_a
           (mkSession false false [] [] [])); reflexivity.
Defined.

(** ** State changes the state machine does not see *)

Section FrameUpdate.

(** An update of the session that leaves the flags alone and commutes with
    everything [feed] does. *)
Variable g : Session -> Session.
Hypothesis g_trap : forall s, trap_next (g s) = trap_next s.
Hypothesis g_stop : forall s, g (set_stop true s) = set_stop true (g s).
Hypothesis g_emit : forall e s, g (emit e s) = emit e (g s).
Hypothesis g_trap_set :
  forall v s, g (set_trap_next v s) = set_trap_next v (g s).
Hypothesis g_append :
  forall r s, g (set_outbuf (outbuf s ++ [r]) s)
              = set_outbuf (outbuf (g s) ++ [r]) (g s).

Lemma interpret_commutes env c s :
  interpret env c (g s) =
  (fst (interpret env c s), g (snd (interpret env c s))).
Proof.
  unfold interpret.
  destruct (bytes_in c [B "q"; B "Q"; B "k"; B "K"; B "\"]).
  { run. simpl. rewrite g_stop. reflexivity. }
  destruct (bytes_in c [B "r"; B "R"]).
  { unfold encode_utf8.
    destruct (utf8_encode reset_prefix); run; [|reflexivity].
    match goal with |- context [utf8_encode ?x] => destruct (utf8_encode x) end;
      reflexivity. }
  destruct (bytes_in c [B "?"]); [|reflexivity].
  unfold print_help, help_lines. cbn [for_each]. run. simpl.
  rewrite !g_emit. reflexivity.
Qed.

Lemma feed_commutes env c s :
  feed env c (g s) = (fst (feed env c s), g (snd (feed env c s))).
Proof.
  unfold feed. run. rewrite g_trap. destruct (trap_next s).
  - rewrite interpret_commutes.
    destruct (interpret env c s) as [[r|e] s']; simpl; [|reflexivity].
    rewrite g_trap_set, g_append. reflexivity.
  - destruct (bytes_eqb c ctrl_a); simpl.
    + rewrite g_trap_set. reflexivity.
    + rewrite g_append. reflexivity.
Qed.

Lemma batch_commutes env cs s :
  for_each (feed env) cs (g s) =
  (fst (for_each (feed env) cs s), g (snd (for_each (feed env) cs s))).
Proof.
  revert s; induction cs as [|c cs IH]; intros s; simpl; [reflexivity|].
  unfold bind. rewrite feed_commutes.
  destruct (feed env c s) as [[[]|e] s']; simpl; [apply IH | reflexivity].
Qed.

End FrameUpdate.

(** Chunks put in front of the pending-output buffer. *)
Lemma batch_prepend env cs o s :
  for_each (feed env) cs (set_outbuf (o ++ outbuf s) s) =
  (fst (for_each (feed env) cs s),
   set_outbuf (o ++ outbuf (snd (for_each (feed env) cs s)))
     (snd (for_each (feed env) cs s))).
Proof.
  apply (batch_commutes (fun s => set_outbuf (o ++ outbuf s) s));
    intros; try reflexivity.
  unfold set_outbuf. simpl. rewrite app_assoc. reflexivity.
Qed.

(** A write to the port made behind the back of the state machine. *)
Lemma batch_port_write env cs d s :
  for_each (feed env) cs (port_write d s) =
  (fst (for_each (feed env) cs s),
   port_write d (snd (for_each (feed env) cs s))).
Proof. apply (batch_commutes (port_write d)); intros; reflexivity. Qed.

(** X4: a SIGINT delivered between two bytes of a batch does not change how
    the rest of the batch is handled: the outcome is the same and the state
    differs by the interrupt byte written to the port. *)
Theorem sigint_inside_batch env b1 b2 s s1 :
  for_each (feed env) (split_bytes b1) s = (Ret tt, s1) ->
  (for_each (feed env) (split_bytes b1) ;;
   sigint_handler ;;
   for_each (feed env) (split_bytes b2)) s =
  (fst (for_each (feed env) (split_bytes (b1 ++ b2)) s),
   port_write [x03] (snd (for_each (feed env) (split_bytes (b1 ++ b2)) s))).
Proof.
  intros H1. rewrite split_bytes_app, (for_each_ret _ _ _ _ _ H1).
  unfold bind at 1. rewrite H1. unfold bind. rewrite sigint_handler_eq.
  apply batch_port_write.
Qed.

Lemma sigint_inside_batch_witness :
  (for_each (feed (fun _ => None)) (split_bytes [x01]) ;;
   sigint_handler ;;
   for_each (feed (fun _ => None)) (split_bytes (B "q")))
    (mkSession false false [] [] []) =
  (fst (for_each (feed (fun _ => None)) (split_bytes ([x01] ++ B "q"))
          (mkSession false false [] [] [])),
   port_write [x03]
     (snd (for_each (feed (fun _ => None)) (split_bytes ([x01] ++ B "q"))
             (mkSession false false [] [] [])))).
Proof.
  apply (sigint_inside_batch (fun _ => None) [x01] (B "q")
           (mkSession false false [] [] [])
           (mkSession false true [] [] [])); reflexivity.
Defined.

(** ** How reads compose *)

Lemma session_eta s :
  mkSession (stop s) (trap_next s) (outbuf s) (port_tx s) (display s) = s.
Proof. destruct s; reflexivity. Qed.

Lemma iteration_stdin_only env data s :
  iteration env None (Some data) s = relay_stdin env data s.
Proof. rewrite iteration_eq. simpl. rewrite session_eta. reflexivity. Qed.

(** X5: where the keyboard input is cut into reads does not matter: when
    two reads in a row leave the loop waiting, the same bytes arriving in
    one read leave it waiting too, with the same byte stream sent to the
    port, the same pending flag and the same display. *)
Theorem read_split_irrelevant env d1 d2 s sA :
  run_loop env [Ready None (Some d1); Ready None (Some d2)] s
    = (Ret Waiting, sA) ->
  exists sB,
    run_loop env [Ready None (Some (d1 ++ d2))] s = (Ret Waiting, sB)
    /\ bytes_join (port_tx sB) = bytes_join (port_tx sA)
    /\ trap_next sB = trap_next sA
    /\ display sB = display sA.
Proof.
  intros H. cbn [run_loop] in *. unfold bind in *.
  rewrite iteration_stdin_only in *.
  destruct (for_each (feed env) (split_bytes d1) s) as [[[]|e] s1] eqn:E1.
  2:{ rewrite (relay_stdin_raise _ _ _ _ _ E1) in H. discriminate. }
  rewrite (relay_stdin_after _ _ _ _ E1) in H.
  destruct (stop s1) eqn:Es1; [discriminate|].
  rewrite iteration_stdin_only in H.
  set (base := set_outbuf [] s1) in *.
  assert (Hw : set_outbuf [] (port_write (bytes_join (outbuf s1)) s1)
               = port_write (bytes_join (outbuf s1)) base) by reflexivity.
  assert (Hp : s1 = set_outbuf (outbuf s1 ++ outbuf base) base).
  { subst base. destruct s1; unfold set_outbuf; simpl.
    rewrite app_nil_r. reflexivity. }
  rewrite Hw in H.
  pose proof (batch_port_write env (split_bytes d2) (bytes_join (outbuf s1))
                base) as Ha.
  pose proof (batch_prepend env (split_bytes d2) (outbuf s1) base) as Hb.
  rewrite <- Hp in Hb.
  destruct (for_each (feed env) (split_bytes d2) base) as [[[]|e] b2] eqn:E2;
    simpl in Ha, Hb.
  2:{ rewrite (relay_stdin_raise _ _ _ _ _ Ha) in H. discriminate. }
  rewrite (relay_stdin_after _ _ _ _ Ha) in H. simpl in H.
  destruct (stop b2) eqn:Es2; [discriminate|].
  injection H as <-.
  assert (Hc : for_each (feed env) (split_bytes (d1 ++ d2)) s =
               (Ret tt, set_outbuf (outbuf s1 ++ outbuf b2) b2)).
  { rewrite split_bytes_app, (for_each_ret _ _ _ _ _ E1). exact Hb. }
  rewrite (relay_stdin_after _ _ _ _ Hc). simpl. rewrite Es2.
  eexists. split; [reflexivity|]. simpl.
  repeat split.
  rewrite !bytes_join_app. simpl. rewrite !app_nil_r, app_assoc.
  reflexivity.
Qed.

Lemma read_split_irrelevant_witness :
  exists sB,
    run_loop (fun _ => None) [Ready None (Some (B "ab" ++ [x01] ++ [x01]))]
      (mkSession false false [] [] []) = (Ret Waiting, sB)
    /\ bytes_join (port_tx sB) =
       bytes_join (port_tx (mkSession false false [] [B "ab"; [x01]] []))
    /\ trap_next sB =
       trap_next (mkSession false false [] [B "ab"; [x01]] [])
    /\ display sB = display (mkSession false false [] [B "ab"; [x01]] []).
Proof.
  apply (read_split_irrelevant (fun _ => None) (B "ab" ++ [x01]) [x01]
           (mkSession false false [] [] [])
           (mkSession false false [] [B "ab"; [x01]] [])); reflexivity.
Defined.

(** ** What one read can do *)





(** X7: a reset command met while TERM has no UTF-8 encoding ends the loop
    with [UnicodeEncodeError]: the bytes buffered before it in the batch are
    not sent, the bytes after it are not looked at and later events are not
    served. *)
Theorem unencodable_term_aborts env p pre c post rest s s1 :
  for_each (feed env) (split_bytes pre) (snd (drain_port p s)) = (Ret tt, s1) ->
  trap_next s1 = false ->
  In c [B "r"; B "R"] ->
  utf8_encode (getenv env "TERM" (S_ "vt100")) = None ->
  run_loop env (Ready p (Some (pre ++ ([x01] ++ c) ++ post)) :: rest) s =
  (Raise UnicodeEncodeError, set_trap_next true s1)
  /\ port_tx s1 = port_tx s.
Proof.
  intros H1 Ht Hc Hv. rewrite drain_port_eq in H1. simpl in H1.
  match type of H1 with for_each _ _ ?s0 = _ =>
    pose proof (batch_port_tx env (split_bytes pre) s0) as Hp end.
  rewrite H1 in Hp. simpl in Hp. split; [|exact Hp].
  assert (Hl : exists b, c = [b]).
  { simpl in Hc. destruct Hc as [<-|[<-|[]]]; eexists; reflexivity. }
  destruct Hl as [b ->].
  cbn [run_loop]. unfold bind at 1. rewrite iteration_eq.
  erewrite relay_stdin_raise; [reflexivity|].
  rewrite split_bytes_app, (for_each_ret _ _ _ _ _ H1), split_bytes_app.
  change (split_bytes ([x01] ++ [b])) with [ctrl_a; [b]].
  cbn [app for_each]. unfold bind at 1. rewrite (feed_prefix env s1 Ht).
  unfold bind at 1. rewrite feed_trapped by reflexivity.
  unfold bind at 1. rewrite (interpret_reset_unencodable env [b] _ Hc Hv).
  reflexivity.
Qed.

Lemma unencodable_term_aborts_witness :
  let env : environ :=
    fun k => if String.eqb k "TERM" then Some [56575%N] else None in
  run_loop env
    [Ready None (Some (B "ab" ++ ([x01] ++ B "r") ++ B "cd"));
     Ready None (Some (B "e"))]
    (mkSession false false [] [] []) =
  (Raise UnicodeEncodeError,
   set_trap_next true (mkSession false false [B "a"; B "b"] [] []))
  /\ port_tx (mkSession false false [B "a"; B "b"] [] []) = [].
Proof.
  apply (unencodable_term_aborts
           (fun k => if String.eqb k "TERM" then Some [56575%N] else None)
           None (B "ab") (B "r") (B "cd") [Ready None (Some (B "e"))]
           (mkSession false false [] [] [])
           (mkSession false false [B "a"; B "b"] [] []));
    [reflexivity | reflexivity | left; reflexivity | reflexivity].
Defined.

(** ** The whole session *)





(** X9: what the port sends while the keyboard is idle reaches the display
    as it was read and in order, each read followed by a flush; nothing is
    written to the port and the state machine is untouched. *)
Theorem port_traffic_displayed env (reads : list bytes) s :
  run_loop env (map (fun data => Ready (Some data) None) reads) s =
  (Ret Waiting,
   mkSession (stop s) (trap_next s) (outbuf s) (port_tx s)
     (display s ++ flat_map (fun data => [BufWrite data; Flush]) reads)).
Proof.
  revert s; induction reads as [|data reads IH]; intros s; simpl.
  - rewrite app_nil_r, session_eta. reflexivity.
  - unfold bind. rewrite iteration_eq, IH. simpl.
    unfold drain_port, emit. run. simpl. rewrite <- !app_assoc. reflexivity.
Qed.

(** * Further properties of the cleanup hooks *)

Section CleanupFailure.

Variable W : Type.
Variable function : M W unit.
Variable old_hook : M W unit.

Lemma fire_failing (t : trigger) (c : closure W) :
  called c = false ->
  (exists e, fst (function (world c)) = Raise e) ->
  called (fire W function old_hook t c) = false
  /\ runs (fire W function old_hook t c) = S (runs c)
  /\ world (fire W function old_hook t c) = snd (function (world c)).
Proof.
  intros H [e He].
  assert (E : cleanup W function c =
              (Raise e, mkClosure false (S (runs c)) (snd (function (world c))))).
  { unfold cleanup, call_function. run. rewrite H. simpl.
    destruct (function (world c)) as [[[]|e'] w]; simpl in *; congruence. }
  destruct t; simpl.
  - rewrite E. auto.
  - unfold new_hook, bind. rewrite E. auto.
Qed.

End CleanupFailure.

(** X10: the guard of [register_cleanup] counts completed calls only: a
    function that raises whenever it is called is run again by every
    trigger, and the flag stays down. *)
Theorem failing_cleanup_runs_every_time (W : Type)
  (function old_hook : M W unit) (w : W) (ts : list trigger) :
  (forall v, exists e, fst (function v) = Raise e) ->
  runs (fire_all W function old_hook ts (register_cleanup W w)) = List.length ts
  /\ called (fire_all W function old_hook ts (register_cleanup W w)) = false.
Proof.
  intros Hf.
  assert (G : forall ts c, called c = false ->
            runs (fire_all W function old_hook ts c) = List.length ts + runs c
            /\ called (fire_all W function old_hook ts c) = false).
  { clear ts. induction ts as [|t ts IH]; intros c Hc; simpl; [auto|].
    destruct (fire_failing W function old_hook t c Hc (Hf (world c)))
      as (Hc1 & Hr1 & _).
    destruct (IH _ Hc1) as [Hr Hc2]. split; [|exact Hc2].
    rewrite Hr, Hr1. lia. }
  destruct (G ts (register_cleanup W w) eq_refl) as [Hr Hc].
  split; [rewrite Hr; simpl; lia | exact Hc].
Qed.

Lemma failing_cleanup_runs_every_time_witness :
  let close : M nat unit := fun n => (Raise ValueError, S n) in
  runs (fire_all nat close (ret tt) [ExceptHook; AtExit; AtExit]
          (register_cleanup nat 0)) = 3
  /\ called (fire_all nat close (ret tt) [ExceptHook; AtExit; AtExit]
               (register_cleanup nat 0)) = false.
Proof.
  apply (failing_cleanup_runs_every_time nat
           (fun n => (Raise ValueError, S n)) (ret tt) 0
           [ExceptHook; AtExit; AtExit]).
  intros v. exists ValueError. reflexivity.
Defined.

(** X11: the two cleanups of a console.  At exit the terminal is restored
    before the port is closed, each once; when an uncaught exception comes
    first, the exception hook does both in that order and then calls the
    hook that was installed before, and the exit that follows does
    neither again. *)
Theorem console_cleanup_order (W : Type)
  (port_close restore_tty original_hook : M W unit) (w : W) :
  fst (restore_tty w) = Ret tt ->
  fst (port_close (snd (restore_tty w))) = Ret tt ->
  let closed := snd (port_close (snd (restore_tty w))) in
  let at_exit :=
    console_atexit W port_close restore_tty (console_hooks W w) in
  let after_exception :=
    console_atexit W port_close restore_tty
      (snd (console_excepthook W port_close restore_tty original_hook
              (console_hooks W w))) in
  (world (world at_exit) = closed
   /\ runs at_exit = 1 /\ runs (world at_exit) = 1)
  /\ (world (world after_exception) = snd (original_hook closed)
      /\ runs after_exception = 1 /\ runs (world after_exception) = 1).
Proof.
  intros Hr Hc. cbv zeta.
  unfold console_atexit, console_excepthook, console_hooks, register_cleanup,
    new_hook, cleanup, in_world, call_function, call_old_hook, set_called.
  run. simpl.
  destruct (restore_tty w) as [[[]|e] w1]; [|discriminate]. simpl in *.
  destruct (port_close w1) as [[[]|e] w2]; [|discriminate]. simpl.
  destruct (original_hook w2) as [r w3]. simpl. auto.
Qed.

Lemma console_cleanup_order_witness :
  let log (what : string) : M (list string) unit :=
    fun l => (Ret tt, l ++ [what]) in
  let at_exit :=
    console_atexit (list string) (log "close"%string) (log "restore"%string)
      (console_hooks (list string) []) in
  let after_exception :=
    console_atexit (list string) (log "close"%string) (log "restore"%string)
      (snd (console_excepthook (list string) (log "close"%string) (log "restore"%string)
              (log "traceback"%string) (console_hooks (list string) []))) in
  (world (world at_exit) = ["restore"; "close"]%string
   /\ runs at_exit = 1 /\ runs (world at_exit) = 1)
  /\ (world (world after_exception)
      = ["restore"; "close"; "traceback"]%string
      /\ runs after_exception = 1 /\ runs (world after_exception) = 1).
Proof.
  apply (console_cleanup_order (list string)
           (fun l => (Ret tt, l ++ ["close"%string]))
           (fun l => (Ret tt, l ++ ["restore"%string]))
           (fun l => (Ret tt, l ++ ["traceback"%string])) []);
    reflexivity.
Defined.

(** * Further properties of the command line *)

Section MainMore.

Variable unicode_upper : N -> pystr.
Variable py_int : pystr -> option Z.
Variable path_exists : pystr -> bool.

Lemma lstrip_blank_app (ws s : pystr) :
  forallb isspace ws = true -> lstrip (ws ++ s) = lstrip s.
Proof.
  induction ws as [|c ws IH]; simpl; [reflexivity|].
  intros H. apply andb_true_iff in H as [Hc Hw]. rewrite Hc. auto.
Qed.

(** [lstrip] on a text with something left: blanks appended after it stay. *)
Lemma lstrip_app_keep (s t : pystr) :
  lstrip s <> [] -> lstrip (s ++ t) = lstrip s ++ t.
Proof.
  induction s as [|c s IH]; simpl; [congruence|].
  destruct (isspace c); [exact IH | reflexivity].
Qed.

Lemma forallb_rev {A} (f : A -> bool) (l : list A) :
  forallb f (rev l) = forallb f l.
Proof.
  induction l as [|x l IH]; simpl; [reflexivity|].
  rewrite forallb_app, IH. simpl. rewrite andb_true_r. apply andb_comm.
Qed.

Lemma strip_padding (ws1 ws2 s : pystr) :
  forallb isspace ws1 = true -> forallb isspace ws2 = true ->
  strip (ws1 ++ s ++ ws2) = strip s.
Proof.
  intros H1 H2. unfold strip. rewrite (lstrip_blank_app ws1 _ H1).
  destruct (lstrip s) as [|c r] eqn:E.
  - (* [s] is blank *)
    assert (Hs : lstrip (s ++ ws2) = []).
    { clear H1. induction s as [|x s IH]; simpl in *.
      - apply lstrip_blank. exact H2.
      - destruct (isspace x); [auto | discriminate]. }
    rewrite Hs. reflexivity.
  - rewrite lstrip_app_keep by (rewrite E; discriminate). rewrite E.
    rewrite rev_app_distr.
    rewrite lstrip_blank_app by (rewrite forallb_rev; exact H2).
    reflexivity.
Qed.

End MainMore.

(** X12: blanks around the parity argument do not matter. *)
Theorem main_ignores_blank_padding
  (unicode_upper : N -> pystr) (py_int : pystr -> option Z)
  (path_exists : pystr -> bool) (dev bd par ws1 ws2 : pystr) :
  forallb isspace ws1 = true ->
  forallb isspace ws2 = true ->
  main unicode_upper py_int path_exists
    (mkNamespace dev bd (ws1 ++ par ++ ws2))
  = main unicode_upper py_int path_exists (mkNamespace dev bd par).
Proof.
  intros H1 H2. unfold main. cbn [parity baud device].
  rewrite (strip_padding ws1 ws2 par H1 H2). reflexivity.
Qed.

Lemma main_ignores_blank_padding_witness :
  main (fun c => [c]) (fun _ => Some 9600%Z) (fun _ => true)
    (mkNamespace (S_ "/dev/ttyS0") (S_ "9600")
       (S_ "  " ++ S_ "odd" ++ [9%N; 10%N]))
  = main (fun c => [c]) (fun _ => Some 9600%Z) (fun _ => true)
      (mkNamespace (S_ "/dev/ttyS0") (S_ "9600") (S_ "odd")).
Proof.
  apply (main_ignores_blank_padding (fun c => [c]) (fun _ => Some 9600%Z)
           (fun _ => true) (S_ "/dev/ttyS0") (S_ "9600") (S_ "odd")
           (S_ "  ") [9%N; 10%N]); reflexivity.
Defined.

(** X13: the console is created exactly when the argument has a first
    letter that upper-cases to [E], [O] or [N], the baud rate parses and
    the device exists; it then gets the device as given, the parsed rate
    and that one upper-case letter. *)
Theorem main_runs_console_iff
  (unicode_upper : N -> pystr) (py_int : pystr -> option Z)
  (path_exists : pystr -> bool) (args : Namespace)
  (dev : pystr) (rate : Z) (par : pystr) :
  main unicode_upper py_int path_exists args = RunConsole dev rate par
  <->
  (exists c tl,
     upper unicode_upper (strip (parity args)) = c :: tl
     /\ par = [c]
     /\ In par [S_ "E"; S_ "O"; S_ "N"])
  /\ py_int (baud args) = Some rate
  /\ path_exists (device args) = true
  /\ dev = device args.
Proof.
  unfold main. split.
  - destruct (upper unicode_upper (strip (parity args))) as [|c tl];
      [discriminate|].
    destruct (pystr_in [c] [S_ "E"; S_ "O"; S_ "N"]) eqn:Ep;
      [|discriminate]. cbn [negb].
    destruct (py_int (baud args)) as [r|]; [|discriminate].
    destruct (path_exists (device args)); [|discriminate]. cbn [negb].
    intros H. injection H as <- <- <-.
    split; [|auto]. exists c, tl. repeat split.
    unfold pystr_in in Ep. apply existsb_exists in Ep as [y [Hy E]].
    assert (Hq : forall a b, pystr_eqb a b = true -> a = b).
    { induction a as [|x a IH]; intros [|z b]; simpl; try discriminate; auto.
      intros Hab. apply andb_true_iff in Hab as [Hx Hab].
      apply N.eqb_eq in Hx. rewrite (IH b Hab), Hx. reflexivity. }
    apply Hq in E. subst y. exact Hy.
  - intros ((c & tl & Hu & -> & Hin) & Hb & Hp & ->). rewrite Hu.
    assert (Ep : pystr_in [c] [S_ "E"; S_ "O"; S_ "N"] = true).
    { simpl in Hin. destruct Hin as [<-|[<-|[<-|[]]]]; reflexivity. }
    rewrite Ep, Hb, Hp. reflexivity.
Qed.




(** * Properties of the earlier console *)

Lemma last_slice_prefix (data : bytes) (b : byte) :
  last_slice data = [b] -> removelast data ++ [b] = data.
Proof.
  induction data as [|x data IH]; [discriminate|].
  destruct data as [|y data].
  - simpl. congruence.
  - intros H. change (last_slice (x :: y :: data)) with (last_slice (y :: data)) in H.
    change (removelast (x :: y :: data)) with (x :: removelast (y :: data)).
    rewrite <- app_comm_cons, (IH H). reflexivity.
Qed.

Lemma last_slice_app (pre : bytes) (b : byte) : last_slice (pre ++ [b]) = [b].
Proof.
  induction pre as [|x pre IH]; [reflexivity|].
  simpl app. destruct (pre ++ [b]) eqn:E.
  - destruct pre; discriminate.
  - exact IH.
Qed.

Lemma last_slice_In (data : bytes) (b : byte) :
  last_slice data = [b] -> In b data.
Proof.
  intros H. rewrite <- (last_slice_prefix data b H).
  apply in_or_app. right. left. reflexivity.
Qed.

Lemma bytes_startswith_In (x : byte) (sub data : bytes) :
  bytes_startswith (x :: sub) data = true -> In x data.
Proof.
  destruct data as [|y data]; simpl; [discriminate|].
  intros H. apply andb_true_iff in H as [H _].
  apply Byte.byte_dec_bl in H. left. congruence.
Qed.

Lemma bytes_contains_In (x : byte) (sub data : bytes) :
  bytes_contains (x :: sub) data = true -> In x data.
Proof.
  induction data as [|y data IH]; intros H.
  - simpl in H. discriminate.
  - cbn [bytes_contains] in H. apply orb_true_iff in H as [H|H].
    + apply (bytes_startswith_In x sub). exact H.
    + right. apply IH. exact H.
Qed.

(** X16: what one keyboard read of the earlier console sends.  When its
    turn continues, the bytes sent so far followed by a held-back prefix
    are those before the read, the prefix held back then, and the read,
    except that a prefix already held back is dropped when the read ends
    with the prefix byte again. *)
Theorem legacy_read_accounting data s s' :
  legacy_stdin data s = (Continue, s') ->
  bytes_join (legacy_tx s') ++ (if trapped_control s' then [x01] else [])
  = bytes_join (legacy_tx s)
    ++ (if trapped_control s && negb (bytes_eqb (last_slice data) [x01])
        then [x01] else [])
    ++ data.
Proof.
  unfold legacy_stdin.
  destruct (bytes_contains (x01 :: B "q") data); [discriminate|].
  destruct (trapped_control s && bytes_eqb (firstn 1 data) (B "q"));
    [discriminate|].
  destruct (bytes_eqb (last_slice data) [x01]) eqn:El.
  - intros H; injection H as <-. apply bytes_eqb_eq in El.
    rewrite andb_false_r. simpl. rewrite bytes_join_app. simpl.
    rewrite app_nil_r, <- app_assoc, (last_slice_prefix data x01 El).
    reflexivity.
  - intros H; injection H as <-. rewrite andb_true_r.
    destruct (trapped_control s) eqn:Et; simpl; rewrite ?Et;
      rewrite !bytes_join_app; simpl; rewrite !app_nil_r, <- ?app_assoc;
      reflexivity.
Qed.

Lemma legacy_read_accounting_witness :
  bytes_join (legacy_tx (mkLegacy false [[x01]; B "ls"] []))
  ++ (if trapped_control (mkLegacy false [[x01]; B "ls"] [])
      then [x01] else [])
  = bytes_join (legacy_tx (mkLegacy true [] []))
    ++ (if trapped_control (mkLegacy true [] [])
           && negb (bytes_eqb (last_slice (B "ls")) [x01])
        then [x01] else [])
    ++ B "ls".
Proof.
  apply (legacy_read_accounting (B "ls") (mkLegacy true [] [])
           (mkLegacy false [[x01]; B "ls"] [])).
  reflexivity.
Defined.

(** X17: on a read without the prefix byte, with no escape pending, the
    earlier console and the current one do the same: the turn continues
    and the port receives one write of exactly the read. *)
Theorem legacy_agrees_on_plain_reads env data old new :
  ~ In x01 data ->
  trapped_control old = false ->
  trap_next new = false -> stop new = false -> outbuf new = [] ->
  legacy_stdin data old
    = (Continue, mkLegacy false (legacy_tx old ++ [data]) (legacy_display old))
  /\ relay_stdin env data new
     = (Ret Continue,
        mkSession false false [] (port_tx new ++ [data]) (display new)).
Proof.
  intros Hn Ho Ht Hs Hb. split.
  - unfold legacy_stdin.
    destruct (bytes_contains (x01 :: B "q") data) eqn:Ec.
    { exfalso. apply Hn. apply (bytes_contains_In _ _ _ Ec). }
    rewrite Ho. cbn [andb].
    destruct (bytes_eqb (last_slice data) [x01]) eqn:El.
    { exfalso. apply Hn. apply bytes_eqb_eq in El.
      apply (last_slice_In _ _ El). }
    unfold legacy_write. rewrite Ho. reflexivity.
  - rewrite (relay_stdin_after env data new _ (batch_literal env data new Hn Ht)).
    simpl. rewrite Hs, Hb. simpl. rewrite bytes_join_split.
    unfold set_outbuf, port_write. simpl. rewrite Ht, Hs. reflexivity.
Qed.

Lemma legacy_agrees_on_plain_reads_witness :
  legacy_stdin (B "ls") (mkLegacy false [] [])
    = (Continue, mkLegacy false ([] ++ [B "ls"]) [])
  /\ relay_stdin (fun _ => None) (B "ls") (mkSession false false [] [] [])
     = (Ret Continue, mkSession false false [] ([] ++ [B "ls"]) []).
Proof.
  apply (legacy_agrees_on_plain_reads (fun _ => None) (B "ls")
           (mkLegacy false [] []) (mkSession false false [] [] []));
    try reflexivity.
  simpl. intros [H|[H|H]]; try discriminate H. exact H.
Defined.

(** X18: in the earlier console too the escape survives the end of a read:
    a read that ends with the prefix byte sends what precedes it, port
    traffic and signals leave the escape pending, and a next read that
    starts with [q] ends the loop with the goodbye line and nothing more
    sent. *)
Theorem legacy_quit_across_reads pre rest mid s s1 p :
  legacy_stdin (pre ++ [x01]) s = (Continue, s1) ->
  forallb quiet mid = true ->
  exists s2,
    legacy_loop (Ready None (Some (pre ++ [x01])) :: mid) s = (Waiting, s2)
    /\ trapped_control s2 = true
    /\ exists d,
         legacy_loop
           (Ready None (Some (pre ++ [x01])) :: mid
            ++ [Ready p (Some (B "q" ++ rest))]) s
         = (Finished,
            mkLegacy true (legacy_tx s2) (d ++ [PrintLn goodbye])).
Proof.
  intros H1 Hq.
  assert (Ht1 : trapped_control s1 = true /\ s1 =
                legacy_write (removelast (pre ++ [x01]))
                  (legacy_set_trapped true s)).
  { revert H1. unfold legacy_stdin.
    destruct (bytes_contains (x01 :: B "q") (pre ++ [x01])); [discriminate|].
    destruct (trapped_control s && bytes_eqb (firstn 1 (pre ++ [x01])) (B "q"));
      [discriminate|].
    rewrite last_slice_app. change (bytes_eqb [x01] [x01]) with true.
    cbn iota. intros H; injection H as <-. split; reflexivity. }
  destruct Ht1 as [Ht1 _].
  assert (G : forall mid u, forallb quiet mid = true ->
            trapped_control u = true ->
            exists u2,
              (forall tl, legacy_loop (mid ++ tl) u = legacy_loop tl u2)
              /\ trapped_control u2 = true).
  { clear. induction mid as [|ev mid IH]; intros u Hq Hu.
    - exists u. auto.
    - simpl in Hq. apply andb_true_iff in Hq as [Hev Hq].
      destruct ev as [q [data|]|]; try discriminate Hev.
      + destruct q as [data|]; simpl.
        * destruct (IH (mkLegacy (trapped_control u) (legacy_tx u)
                          (legacy_display u ++ [BufWrite data; Flush])) Hq Hu)
            as (u2 & Hl & Hu2).
          exists u2. auto.
        * destruct (IH u Hq Hu) as (u2 & Hl & Hu2). exists u2. auto.
      + destruct (IH (legacy_write [x03] u) Hq Hu) as (u2 & Hl & Hu2).
        exists u2. auto. }
  destruct (G mid s1 Hq Ht1) as (s2 & Hl & Ht2).
  exists s2. split.
  { cbn [legacy_loop legacy_iteration]. rewrite H1.
    rewrite <- (app_nil_r mid), Hl. reflexivity. }
  split; [exact Ht2|].
  cbn [legacy_loop legacy_iteration]. rewrite H1, Hl.
  cbn [legacy_loop legacy_iteration].
  match goal with |- context [legacy_stdin _ ?u] => set (u0 := u) end.
  assert (Hu0 : trapped_control u0 = true /\ legacy_tx u0 = legacy_tx s2).
  { subst u0. destruct p; simpl; auto. }
  destruct Hu0 as [Hu0 Hx].
  unfold legacy_stdin.
  destruct (bytes_contains (x01 :: B "q") (B "q" ++ rest)).
  - exists (legacy_display u0). unfold legacy_print.
    rewrite Hu0, Hx. reflexivity.
  - rewrite Hu0. cbn [andb firstn app B list_byte_of_string].
    change (bytes_eqb (firstn 1 (B "q" ++ rest)) (B "q")) with true.
    cbn iota. exists (legacy_display u0). unfold legacy_print.
    rewrite Hu0, Hx. reflexivity.
Qed.

Lemma legacy_quit_across_reads_witness :
  exists s2,
    legacy_loop (Ready None (Some (B "a" ++ [x01])) :: [Signal])
      (mkLegacy false [] []) = (Waiting, s2)
    /\ trapped_control s2 = true
    /\ exists d,
         legacy_loop
           (Ready None (Some (B "a" ++ [x01])) :: [Signal]
            ++ [Ready None (Some (B "q" ++ B "uit"))])
           (mkLegacy false [] [])
         = (Finished, mkLegacy true (legacy_tx s2) (d ++ [PrintLn goodbye])).
Proof.
  apply (legacy_quit_across_reads (B "a") (B "uit") [Signal]
           (mkLegacy false [] []) (mkLegacy true [B "a"] []) None);
    reflexivity.
Defined.

(** * Properties of the packaging helper *)

Lemma str_startswith_app (sub a b : pystr) :
  str_startswith sub a = true -> str_startswith sub (a ++ b) = true.
Proof.
  revert a; induction sub as [|x sub IH]; intros a; [reflexivity|].
  destruct a as [|y a]; simpl; [discriminate|].
  intros H. apply andb_true_iff in H as [Hx Ha].
  rewrite Hx, (IH a Ha). reflexivity.
Qed.

Lemma str_contains_app_l (sub a b : pystr) :
  str_contains sub a = true -> str_contains sub (a ++ b) = true.
Proof.
  induction a as [|y a IH]; intros H.
  - cbn [str_contains] in H. rewrite orb_false_r in H.
    destruct sub; [|discriminate]. destruct b; reflexivity.
  - cbn [str_contains] in H. apply orb_true_iff in H as [H|H].
    + change ((y :: a) ++ b) with (y :: a ++ b). cbn [str_contains].
      change (y :: a ++ b) with ((y :: a) ++ b).
      rewrite (str_startswith_app _ _ b H). reflexivity.
    + change ((y :: a) ++ b) with (y :: a ++ b). cbn [str_contains].
      rewrite (IH H). apply orb_true_r.
Qed.

Lemma str_contains_app_r (sub a b : pystr) :
  str_contains sub b = true -> str_contains sub (a ++ b) = true.
Proof.
  intros H. induction a as [|y a IH]; [exact H|].
  change ((y :: a) ++ b) with (y :: a ++ b). cbn [str_contains].
  rewrite IH. apply orb_true_r.
Qed.

(** A relative file name joined to a directory keeps the directory path as
    a part of the result. *)
Lemma path_join_keeps_dir (sub path filename : pystr) :
  str_startswith (S_ "/") filename = false ->
  str_contains sub path = true ->
  str_contains sub (path_join (S_ "..") [path; filename]) = true.
Proof.
  intros Hf Hp. unfold path_join. cbn [fold_left].
  assert (Hd : str_contains sub (path_join2 (S_ "..") path) = true).
  { unfold path_join2. destruct (str_startswith (S_ "/") path); [exact Hp|].
    cbn [rev S_ list_byte_of_string map app]. simpl.
    repeat (apply str_contains_app_r with (a := [_])).
    exact Hp. }
  unfold path_join2 at 1. rewrite Hf.
  destruct (rev (path_join2 (S_ "..") path)) as [|c r].
  - apply str_contains_app_l. exact Hd.
  - destruct (c =? 47)%N; apply str_contains_app_l; exact Hd.
Qed.

(** The three filters of [package_files] as one. *)
Lemma package_files_fused (walk : list walk_entry) :
  package_files walk =
  filter
    (fun x => negb (str_contains (S_ ".git") x)
              && negb (str_contains (S_ "__pycache__") x)
              && negb (str_contains (S_ ".pyc") x))
    (collect_paths walk).
Proof.
  unfold package_files. generalize (collect_paths walk) as l.
  induction l as [|x l IH]; [reflexivity|]. cbn [filter].
  destruct (str_contains (S_ ".git") x); cbn [negb andb]; [exact IH|].
  cbn [filter].
  destruct (str_contains (S_ "__pycache__") x); cbn [negb andb]; [exact IH|].
  cbn [filter].
  destruct (str_contains (S_ ".pyc") x); cbn [negb andb]; [exact IH|].
  rewrite IH. reflexivity.
Qed.

(** X19: the paths [package_files] returns are the collected paths that
    contain none of [.git], [__pycache__] and [.pyc], in the order of the
    walk. *)
Theorem package_files_filter (walk : list walk_entry) :
  package_files walk =
  filter
    (fun x => negb (str_contains (S_ ".git") x)
              && negb (str_contains (S_ "__pycache__") x)
              && negb (str_contains (S_ ".pyc") x))
    (collect_paths walk)
  /\ forall x,
       In x (package_files walk) ->
       str_contains (S_ ".git") x = false
       /\ str_contains (S_ "__pycache__") x = false
       /\ str_contains (S_ ".pyc") x = false.
Proof.
  split; [apply package_files_fused|].
  intros x Hx. rewrite package_files_fused in Hx.
  apply filter_In in Hx as [_ Hx].
  apply andb_true_iff in Hx as [Hx H3]. apply andb_true_iff in Hx as [H1 H2].
  apply negb_true_iff in H1, H2, H3. auto.
Qed.

(** X20: a directory whose path contains one of the three marks gives no
    file at all: the test is made on the whole joined path, so [.git]
    also hides what lies under [.github], whatever the files are called. *)
Theorem package_files_skips_marked_dirs (walk : list walk_entry)
  (path : pystr) (dirs files : list pystr) :
  (str_contains (S_ ".git") path
   || str_contains (S_ "__pycache__") path
   || str_contains (S_ ".pyc") path) = true ->
  Forall (fun f => str_startswith (S_ "/") f = false) files ->
  package_files (walk ++ [(path, dirs, files)]) = package_files walk.
Proof.
  intros Hm Hf.
  rewrite !package_files_fused.
  unfold collect_paths. rewrite flat_map_app, filter_app.
  cbn [flat_map]. rewrite app_nil_r.
  match goal with |- _ ++ ?r = _ => assert (Hr : r = []) end.
  { induction Hf as [|f files Hf0 _ IH]; [reflexivity|].
    cbn [map filter].
    assert (Hx : (negb (str_contains (S_ ".git")
                          (path_join (S_ "..") [path; f]))
                  && negb (str_contains (S_ "__pycache__")
                             (path_join (S_ "..") [path; f]))
                  && negb (str_contains (S_ ".pyc")
                             (path_join (S_ "..") [path; f]))) = false).
    { apply orb_true_iff in Hm as [Hm|Hm];
        [apply orb_true_iff in Hm as [Hm|Hm]|];
        rewrite (path_join_keeps_dir _ path f Hf0 Hm); cbn [negb andb];
        rewrite ?andb_false_r; reflexivity. }
    rewrite Hx. exact IH. }
  rewrite Hr. apply app_nil_r.
Qed.

Lemma package_files_skips_marked_dirs_witness :
  package_files
    ([(S_ "tinyterm", [S_ ".github"], [S_ "tinyterm.py"])]
     ++ [(S_ "tinyterm/.github", [], [S_ "ci.yml"])])
  = package_files [(S_ "tinyterm", [S_ ".github"], [S_ "tinyterm.py"])].
Proof.
  apply (package_files_skips_marked_dirs
           [(S_ "tinyterm", [S_ ".github"], [S_ "tinyterm.py"])]
           (S_ "tinyterm/.github") [] [S_ "ci.yml"]).
  - reflexivity.
  - repeat constructor.
Defined.
